(** * Verification of the directory-listing transform and the mailbox report

    Shallow embedding of [maltego/maltego-trx/maltego_trx.py] (module
    [ListFiles]) and of [reporting/email_report.py] (module [EmailReport]),
    with the Python built-ins both rely on collected in module [Py]. *)

From stdpp Require Import gmap strings list sorting.
From Stdlib Require Import Ascii ZArith DecimalString DecimalN DecimalZ.
From Equations Require Import Equations.

Local Open Scope Z_scope.

(** ** Python built-ins used by the two programs *)

Module Py.

(** Values a request property can hold.  [PyObj] stands for any other
    object, described by what the program observes of it: its truth value,
    its [str()] and the outcome of [int()] ([None] when [int()] raises). *)
Inductive pyval : Type :=
| PyNone
| PyBool (b : bool)
| PyInt (z : Z)
| PyStr (s : string)
| PyObj (truthy : bool) (repr : string) (as_int : option Z).

Definition is_none (v : pyval) : bool :=
  match v with PyNone => true | _ => false end.

(** Truth value, as tested by [or] and [if]. *)
Definition truthy (v : pyval) : bool :=
  match v with
  | PyNone => false
  | PyBool b => b
  | PyInt z => negb (z =? 0)
  | PyStr s => negb (String.eqb s "")
  | PyObj t _ _ => t
  end.

(** [a or b] *)
Definition py_or (a b : pyval) : pyval := if truthy a then a else b.

Definition is_digit (c : ascii) : bool :=
  let n := Ascii.N_of_ascii c in ((48 <=? n) && (n <=? 57))%N.

Definition digit_val (c : ascii) : Z := Z.of_N (Ascii.N_of_ascii c) - 48.

(** ASCII white space, stripped by [int()] on both sides of a literal. *)
Definition is_space (c : ascii) : bool :=
  let n := Ascii.N_of_ascii c in
  (((9 <=? n) && (n <=? 13)) || ((28 <=? n) && (n <=? 32)))%N.

Definition lower_ascii (c : ascii) : ascii :=
  let n := Ascii.N_of_ascii c in
  if ((65 <=? n) && (n <=? 90))%N then Ascii.ascii_of_N (n + 32) else c.

(** [s.lower()] on ASCII text. *)
Fixpoint lower (s : string) : string :=
  match s with
  | EmptyString => EmptyString
  | String c s' => String (lower_ascii c) (lower s')
  end.

Fixpoint lstrip (l : list ascii) : list ascii :=
  match l with
  | c :: l' => if is_space c then lstrip l' else l
  | [] => []
  end.

Definition strip (l : list ascii) : list ascii :=
  rev (lstrip (rev (lstrip l))).

(** Decimal digits with single underscores allowed between two digits. *)
Fixpoint parse_digits (acc : Z) (after_digit : bool) (l : list ascii) : option Z :=
  match l with
  | [] => if after_digit then Some acc else None
  | c :: l' =>
      if is_digit c then parse_digits (acc * 10 + digit_val c) true l'
      else if Ascii.eqb c "_" && after_digit then parse_digits acc false l'
      else None
  end.

(** [int(s)] for a string: [None] stands for [ValueError]. *)
Definition int_of_string (s : string) : option Z :=
  match strip (String.list_ascii_of_string s) with
  | c :: l =>
      if Ascii.eqb c "-" then Z.opp <$> parse_digits 0 false l
      else if Ascii.eqb c "+" then parse_digits 0 false l
      else parse_digits 0 false (c :: l)
  | [] => None
  end.

(** [int(v)]: [None] stands for the exception [int] raises. *)
Definition py_int (v : pyval) : option Z :=
  match v with
  | PyNone => None
  | PyBool b => Some (if b then 1 else 0)
  | PyInt z => Some z
  | PyStr s => int_of_string s
  | PyObj _ _ n => n
  end.

(** [str(n)] for an integer. *)
Definition str_of_Z (z : Z) : string := NilZero.string_of_int (Z.to_int z).

Definition str_of_N (n : N) : string := NilEmpty.string_of_uint (N.to_uint n).

(** [str(v)] *)
Definition py_str (v : pyval) : string :=
  match v with
  | PyNone => "None"
  | PyBool b => if b then "True" else "False"
  | PyInt z => str_of_Z z
  | PyStr s => s
  | PyObj _ r _ => r
  end.

(** [s in ('1', 'true', 'yes')] *)
Definition is_yes (s : string) : bool :=
  String.eqb s "1" || String.eqb s "true" || String.eqb s "yes".

End Py.

(** ** The file-listing transform ([maltego_trx.py]) *)

Module ListFiles.
Import Py.

(** *** File system, request and response *)

(** The two exception classes the walker distinguishes; [msg] is [str(e)]. *)
Inductive os_error : Type :=
| PermissionError (msg : string)
| OSError (msg : string).

(** A directory entry as [os.scandir] returns it: its name, the outcome of
    the type probe shared by [is_file] and [is_dir] ([Some e]: the probe
    raises [e]), and the object itself.  A directory carries the outcome
    of listing it ([Some e]: [os.scandir] raises [e]) next to its
    children, which exist whether or not the listing succeeds. *)
Inductive entry : Type :=
| Entry (name : string) (probe : option os_error) (kind : node)
with node : Type :=
| RegFile
| Directory (scan : option os_error) (children : list entry)
| SymLink (target : node)
| Special.

(** What a path designates once symbolic links are followed. *)
Fixpoint resolve (n : node) : node :=
  match n with
  | SymLink t => resolve t
  | _ => n
  end.

Record World : Type := {
  (** the object a path designates; [None]: nothing is there *)
  lookup : string -> option node;
  (** [os.path.getsize] *)
  getsize : string -> os_error + Z;
  (** [os.path.relpath fp start]; [None]: it raises *)
  relpath : string -> string -> option string;
  (** [os.environ] *)
  environ : gmap string string
}.

(** The request object is duck-typed: an accessor is [None] when the
    attribute is missing, and an accessor call returns [None] when it
    raises; a dictionary attribute is [None] when it is missing or is not
    a [dict]. *)
Record Request : Type := {
  Value : string;
  getProperty : option (string -> option pyval);
  getPropertyValue : option (string -> option pyval);
  Properties : option (gmap string pyval);
  Fields : option (gmap string pyval);
  params : option (gmap string pyval)
}.

Record Property : Type := {
  fieldName : string;
  displayName : string;
  matchingRule : string;
  propValue : pyval
}.

Record Entity : Type := {
  entityType : string;
  value : string;
  properties : list Property
}.

(** A UI message with its [messageType] ([None] for the default,
    informational type). *)
Definition UIMessage : Type := (string * option string)%type.

Record Response : Type := {
  entities : list Entity;
  messages : list UIMessage
}.

Definition addUIMessage (r : Response) (m : UIMessage) : Response :=
  {| entities := entities r; messages := messages r ++ [m] |}.

Definition addEntity (r : Response) (e : Entity) : Response :=
  {| entities := entities r ++ [e]; messages := messages r |}.

Definition PartialError : option string := Some "PartialError".

(** *** Paths *)

Fixpoint ends_with_sep (s : string) : bool :=
  match s with
  | EmptyString => false
  | String c EmptyString => Ascii.eqb c "/"
  | String _ s' => ends_with_sep s'
  end.

(** [entry.path]: the directory path joined with the entry name. *)
Definition join (path name : string) : string :=
  if String.eqb path "" || ends_with_sep path then path +:+ name
  else path +:+ "/" +:+ name.

Fixpoint rstrip_sep (rl : list ascii) : list ascii :=
  match rl with
  | c :: rl' => if Ascii.eqb c "/" then rstrip_sep rl' else rl
  | [] => []
  end.

Fixpoint drop_basename (rl : list ascii) : list ascii :=
  match rl with
  | c :: rl' => if Ascii.eqb c "/" then rl else drop_basename rl'
  | [] => []
  end.

(** [os.path.dirname] (POSIX), computed on the reversed path. *)
Definition dirname (p : string) : string :=
  let head := drop_basename (rev (String.list_ascii_of_string p)) in
  let stripped := rstrip_sep head in
  String.string_of_list_ascii
    (rev (match stripped with [] => head | _ => stripped end)).

(** *** Request parameters and settings *)

Definition call_accessor (acc : option (string -> option pyval))
    (name : string) : pyval :=
  match acc with
  | Some f => match f name with Some v => v | None => PyNone end
  | None => PyNone
  end.

Fixpoint first_dict (ds : list (option (gmap string pyval)))
    (name : string) : pyval :=
  match ds with
  | Some d :: ds' =>
      match d !! name with
      | Some v => v
      | None => first_dict ds' name
      end
  | None :: ds' => first_dict ds' name
  | [] => PyNone
  end.

Definition _get_req_param (request : Request) (name : string) : pyval :=
  let v := call_accessor (getProperty request) name in
  if negb (is_none v) then v else
  let v := call_accessor (getPropertyValue request) name in
  if negb (is_none v) then v else
  first_dict [Properties request; Fields request; params request] name.

Definition env_recursive (w : World) : bool :=
  is_yes (lower (default "1" (environ w !! "LISTFILES_RECURSIVE"))).

Definition env_maxdepth (w : World) : option string :=
  environ w !! "LISTFILES_MAXDEPTH".

Definition req_recursive (request : Request) : pyval :=
  _get_req_param request "recursive".

Definition req_maxdepth (request : Request) : pyval :=
  py_or (_get_req_param request "max_depth") (_get_req_param request "maxdepth").

Definition recursive (w : World) (request : Request) : bool :=
  let r := req_recursive request in
  if negb (is_none r) then is_yes (lower (py_str r)) else env_recursive w.

Definition max_depth (w : World) (request : Request) : option Z :=
  let r := req_maxdepth request in
  if negb (is_none r) then py_int r
  else match env_maxdepth w with
       | Some s => int_of_string s
       | None => None
       end.

(** *** The walker *)

(** What the generator does, in order: it yields a pair or, on an error,
    adds a UI message to the response. *)
Inductive event : Type :=
| Yield (fp : string) (depth : Z)
| Message (m : UIMessage).

Definition listing_error (path : string) (e : os_error) : event :=
  match e with
  | PermissionError _ => Message ("Permission Denied: " +:+ path, PartialError)
  | OSError msg =>
      Message ("Error listing directory " +:+ path +:+ ": " +:+ msg, PartialError)
  end.

Definition entry_error (path : string) (e : os_error) : event :=
  match e with
  | PermissionError _ => Message ("Permission denied for " +:+ path, PartialError)
  | OSError msg =>
      Message ("Error processing " +:+ path +:+ ": " +:+ msg, PartialError)
  end.

(** [cur_depth < max_depth], or no limit. *)
Definition may_descend (max_depth : option Z) (cur_depth : Z) : bool :=
  match max_depth with
  | None => true
  | Some m => cur_depth <? m
  end.

Fixpoint iter_files (recursive : bool) (max_depth : option Z)
    (path : string) (cur_depth : Z) (n : node) {struct n} : list event :=
  match n with
  | Directory (Some err) _ => [listing_error path err]
  | Directory None children =>
      flat_map (iter_entry recursive max_depth path cur_depth) children
  | SymLink target => iter_files recursive max_depth path cur_depth target
  | RegFile | Special => [listing_error path (OSError "Not a directory")]
  end
with iter_entry (recursive : bool) (max_depth : option Z)
    (path : string) (cur_depth : Z) (e : entry) {struct e} : list event :=
  match e with
  | Entry name (Some err) _ => [entry_error (join path name) err]
  | Entry name None kind =>
      match kind with
      | RegFile => [Yield (join path name) cur_depth]
      | Directory _ _ =>
          if recursive && may_descend max_depth cur_depth
          then iter_files recursive max_depth (join path name) (cur_depth + 1) kind
          else []
      | SymLink _ | Special => []
      end
  end.

(** *** The transform *)

Definition file_entity (w : World) (folder_path fp : string) (depth : Z)
    (size : option Z) : Entity :=
  {| entityType := "maltego.File";
     value := fp;
     properties :=
       [ {| fieldName := "path"; displayName := "Path";
            matchingRule := "strict"; propValue := PyStr fp |};
         {| fieldName := "depth"; displayName := "Depth";
            matchingRule := "strict"; propValue := PyInt depth |};
         {| fieldName := "parent"; displayName := "Parent";
            matchingRule := "strict"; propValue := PyStr (dirname fp) |};
         {| fieldName := "relative_path"; displayName := "Relative Path";
            matchingRule := "strict";
            propValue := PyStr (default fp (relpath w fp folder_path)) |} ]
       ++ match size with
          | Some n => [ {| fieldName := "filesize"; displayName := "File Size";
                           matchingRule := "loose";
                           propValue := PyStr (str_of_Z n) |} ]
          | None => []
          end |}.

Definition size_error (fp : string) (e : os_error) : UIMessage :=
  ("Could not read size for " +:+ fp +:+ ": "
     +:+ match e with PermissionError m | OSError m => m end, PartialError).

(** The body of the [for fp, depth in iter_files(...)] loop, run over the
    generator's events; the state is the response and [total]. *)
Definition consume (w : World) (folder_path : string)
    (st : Response * Z) (ev : event) : Response * Z :=
  let (r, total) := st in
  match ev with
  | Message m => (addUIMessage r m, total)
  | Yield fp depth =>
      match getsize w fp with
      | inr n => (addEntity r (file_entity w folder_path fp depth (Some n)), total + 1)
      | inl e =>
          (addUIMessage (addEntity r (file_entity w folder_path fp depth None))
             (size_error fp e), total + 1)
      end
  end.

Definition summary (total : Z) (folder_path : string) (recursive : bool)
    (max_depth : option Z) : UIMessage :=
  ("Added " +:+ str_of_Z total +:+ " file(s) from " +:+ folder_path
     +:+ (if recursive
          then " (recursive)"
                 +:+ match max_depth with
                     | Some m => ", max_depth=" +:+ str_of_Z m
                     | None => ""
                     end
          else ""),
   None).

Definition is_dir (n : node) : bool :=
  match resolve n with Directory _ _ => true | _ => false end.

Definition create_entities (w : World) (request : Request)
    (response : Response) : Response :=
  let folder_path := Value request in
  match lookup w folder_path with
  | None => addUIMessage response ("Path not found: " +:+ folder_path, PartialError)
  | Some root =>
      if negb (is_dir root)
      then addUIMessage response ("Input is not a directory.", PartialError)
      else
        let recursive := recursive w request in
        let max_depth := max_depth w request in
        let (r, total) :=
          foldl (consume w folder_path) (response, 0)
            (iter_files recursive max_depth folder_path 0 root) in
        addUIMessage r (summary total folder_path recursive max_depth)
  end.

(** *** Observations used in the statements *)

(** The records the walker yields, in order. *)
Definition yields (evs : list event) : list (string * Z) :=
  omap (fun ev => match ev with Yield fp d => Some (fp, d) | Message _ => None end) evs.

(** The regular files directly inside a directory, as records of depth 0. *)
Definition direct_child_files (path : string) (children : list entry)
    : list (string * Z) :=
  omap (fun e => match e with
                 | Entry name _ RegFile => Some (join path name, 0)
                 | _ => None
                 end) children.

(** The same, leaving out the entries whose type probe raises. *)
Definition probed_child_files (path : string) (children : list entry)
    : list (string * Z) :=
  omap (fun e => match e with
                 | Entry name None RegFile => Some (join path name, 0)
                 | _ => None
                 end) children.

(** The entity the transform adds for a yielded pair. *)
Definition entity_of (w : World) (folder_path : string) (y : string * Z) : Entity :=
  file_entity w folder_path y.1 y.2
    (match getsize w y.1 with inr n => Some n | inl _ => None end).

(** The walker's view of an entry once every symbolic link below it is
    replaced by a special file. *)
Fixpoint without_links (e : entry) : entry :=
  match e with
  | Entry name probe kind =>
      Entry name probe
        match kind with
        | Directory scan children => Directory scan (map without_links children)
        | SymLink _ => Special
        | RegFile => RegFile
        | Special => Special
        end
  end.

(** The UI messages a run of the loop adds for the walker's events: the
    walker's own, and one for each file whose size cannot be read. *)
Definition loop_messages (w : World) (evs : list event) : list UIMessage :=
  flat_map (fun ev => match ev with
                      | Message m => [m]
                      | Yield fp _ =>
                          match getsize w fp with
                          | inl e => [size_error fp e]
                          | inr _ => []
                          end
                      end) evs.


(** A tree whose entries all have a name. *)
Definition named (e : entry) : Prop :=
  match e with Entry name _ _ => name <> "" end.

(** An entry and every entry below it. *)
Fixpoint all_entries (e : entry) : list entry :=
  e :: match e with
       | Entry _ _ (Directory _ children) => flat_map all_entries children
       | Entry _ _ _ => []
       end.



(** Is the input path an existing directory? *)
Definition valid_input (w : World) (request : Request) : bool :=
  match lookup w (Value request) with
  | Some root => is_dir root
  | None => false
  end.

(** *** Sample inputs *)

Definition no_response : Response := {| entities := []; messages := [] |}.

Definition sample_tree : node :=
  Directory None
    [ Entry "a.txt" None RegFile;
      Entry "sub" None (Directory None [Entry "b.txt" None RegFile]);
      Entry "link" None (SymLink RegFile) ].

Definition sample_world (root : node) (env : gmap string string) : World :=
  {| lookup := fun p => if String.eqb p "/data" then Some root else None;
     getsize := fun _ => inr 5;
     relpath := fun _ _ => None;
     environ := env |}.

Definition sample_request (props : gmap string pyval) : Request :=
  {| Value := "/data";
     getProperty := None;
     getPropertyValue := None;
     Properties := Some props;
     Fields := None;
     params := None |}.

End ListFiles.

(** ** The mailbox report ([email_report.py]) *)

Module EmailReport.
Import Py.

(** *** Exceptions *)

(** The exception classes the script names in its handlers or that its
    library calls raise; all derive from [Exception]. *)
Inductive exn : Type :=
| Exception
| IMAP4_error
| IMAP4_abort
| error_proto
| OSError_
| TimeoutError
| SMTPException
| SMTPAuthenticationError.

(** The direct base class. *)
Definition base (e : exn) : option exn :=
  match e with
  | Exception => None
  | IMAP4_error => Some Exception
  | IMAP4_abort => Some IMAP4_error
  | error_proto => Some Exception
  | OSError_ => Some Exception
  | TimeoutError => Some OSError_
  | SMTPException => Some OSError_
  | SMTPAuthenticationError => Some SMTPException
  end.

Definition exn_eqb (a b : exn) : bool :=
  match a, b with
  | Exception, Exception | IMAP4_error, IMAP4_error
  | IMAP4_abort, IMAP4_abort | error_proto, error_proto
  | OSError_, OSError_ | TimeoutError, TimeoutError
  | SMTPException, SMTPException
  | SMTPAuthenticationError, SMTPAuthenticationError => true
  | _, _ => false
  end.

Fixpoint isinstance_upto (fuel : nat) (e cls : exn) : bool :=
  exn_eqb e cls ||
  match fuel, base e with
  | S f, Some b => isinstance_upto f b cls
  | _, _ => false
  end.

(** Does [except cls] catch [e]?  The hierarchy is four classes deep. *)
Definition isinstance (e cls : exn) : bool := isinstance_upto 4 e cls.

(** Result of a call: a value, or an exception leaving the function. *)
Inductive outcome (A : Type) : Type :=
| Return (a : A)
| Raise (e : exn).
Arguments Return {A} a.
Arguments Raise {A} e.

(** *** Data *)

Record Account : Type := {
  email : string;
  password : string;
  server : string;
  (** [None]: the dictionary has no ['protocol'] key *)
  protocol : option string
}.

Record MessageRecord : Type := {
  Source_Account : string;
  Date : string;
  Sender : string;
  Subject : string
}.

(** The headers of a parsed message, as [msg.get] finds them. *)
Record Message : Type := {
  hdr_subject : option string;
  hdr_from : option string;
  hdr_date : option string
}.

(** A [datetime]: its wall-clock fields as microseconds, and the UTC
    offset it carries, if any. *)
Record datetime : Type := {
  wall : Z;
  tzinfo : option Z
}.

(** [d.replace(tzinfo=None)] *)
Definition drop_tzinfo (d : datetime) : datetime :=
  {| wall := wall d; tzinfo := None |}.

(** [d - timedelta(days=n)] on a naive datetime. *)
Definition minus_days (d : datetime) (n : Z) : datetime :=
  {| wall := wall d - n * 86400000000; tzinfo := tzinfo d |}.

(** [a < b] between naive datetimes. *)
Definition dt_ltb (a b : datetime) : bool := wall a <? wall b.

(** *** The servers and the configuration *)

(** One element of the [msg_data] list an IMAP [fetch] returns. *)
Inductive response_part : Type :=
| NotTuple
| TuplePart (parsed : exn + Message).

(** What an IMAP server does during one connection: for each client call,
    the exception it raises or the value it returns. *)
Record imap_session : Type := {
  imap_connect : option exn;
  imap_login : option exn;
  (** [status == 'OK'] *)
  imap_select : exn + bool;
  (** [status == 'OK'] and [messages[0].split()] *)
  imap_search : exn + (bool * list string);
  (** by position in [email_ids], from 1 *)
  imap_fetch : nat -> exn + (bool * list response_part);
  imap_close : option exn;
  imap_logout : option exn
}.

Record pop3_session : Type := {
  pop3_connect : option exn;
  pop3_user : option exn;
  pop3_pass : option exn;
  (** [len(mail.list()[1])] *)
  pop3_list : exn + nat;
  (** [mail.retr(i)] followed by the parsing of what it returns *)
  pop3_retr : nat -> exn + Message;
  pop3_quit : option exn;
  (** [datetime.now()] during this connection *)
  pop3_now : datetime
}.

Record smtp_session : Type := {
  smtp_connect : option exn;
  smtp_starttls : option exn;
  smtp_login : option exn;
  smtp_sendmail : option exn;
  smtp_quit : option exn
}.

(** Everything outside the script: the servers, indexed by the number of
    connections opened before, the file system and two library calls. *)
Record Outside : Type := {
  imap_server : nat -> imap_session;
  pop3_server : nat -> pop3_session;
  smtp_server : nat -> smtp_session;
  (** the body of the [try] of [decode_email_header]; [None]: it raises *)
  decode_header : string -> option string;
  (** [email.utils.parsedate_to_datetime]; [None]: it raises *)
  parsedate_to_datetime : string -> option datetime;
  excel_write : option exn;
  csv_write : option exn;
  attachment_open : option exn
}.

(** The module-level settings, read once at import. *)
Record Config : Type := {
  ACCOUNTS_TO_CHECK : list Account;
  SENDER_EMAIL : string;
  SENDER_PASS : string;
  SMTP_SERVER : string;
  SMTP_PORT : Z;
  RECIPIENT_EMAIL : string;
  REPORT_FILENAME : string;
  DAYS_BACK : Z;
  IMAP_TIMEOUT : Z;
  MAX_RETRIES : Z
}.

Inductive proto : Type := IMAP | POP3 | SMTP.

(** The effects a run leaves behind (logging apart). *)
Inductive effect : Type :=
| Connect (p : proto) (host : string)
| Sleep (seconds : Z)
| WriteExcel (filename : string)
| WriteCsv (filename : string)
| SendMail (sender recipient : string).

Record World : Type := {
  conns : nat;
  trace : list effect
}.

Definition opened (p : proto) (host : string) (w : World) : World :=
  {| conns := S (conns w); trace := trace w ++ [Connect p host] |}.

Definition did (ef : effect) (w : World) : World :=
  {| conns := conns w; trace := trace w ++ [ef] |}.

(** [sleep(seconds)] *)
Definition sleep (seconds : Z) (w : World) : World := did (Sleep seconds) w.

(** *** Account discovery *)

Fixpoint span_digits (l : list ascii) : list ascii * list ascii :=
  match l with
  | c :: l' =>
      if is_digit c then let (ds, rest) := span_digits l' in (c :: ds, rest)
      else ([], l)
  | [] => ([], [])
  end.

Fixpoint strip_prefix (p l : list ascii) : option (list ascii) :=
  match p, l with
  | [], _ => Some l
  | a :: p', b :: l' => if Ascii.eqb a b then strip_prefix p' l' else None
  | _ :: _, [] => None
  end.

Definition digit_step (acc : N) (c : ascii) : N :=
  (acc * 10 + (Ascii.N_of_ascii c - 48))%N.

(** [int(ds)] for a run of digits. *)
Definition digits_value (ds : list ascii) : N := foldl digit_step 0%N ds.

Definition newline : ascii := Ascii.ascii_of_N 10.

(** [re.compile(r'^ACCOUNT_(\d+)_EMAIL$').match(key)], then
    [int(match.group(1))], on ASCII keys; [$] also matches before a final
    newline. *)
Definition account_pattern (key : string) : option N :=
  match strip_prefix (String.list_ascii_of_string "ACCOUNT_")
          (String.list_ascii_of_string key) with
  | None => None
  | Some l =>
      let (ds, rest) := span_digits l in
      match ds with
      | [] => None
      | _ :: _ =>
          let tail := String.string_of_list_ascii rest in
          if String.eqb tail "_EMAIL"
             || String.eqb tail (String.string_of_list_ascii
                  (String.list_ascii_of_string "_EMAIL" ++ [newline]))
          then Some (digits_value ds)
          else None
      end
  end.

Definition upper_ascii (c : ascii) : ascii :=
  let n := Ascii.N_of_ascii c in
  if ((97 <=? n) && (n <=? 122))%N then Ascii.ascii_of_N (n - 32) else c.

(** [s.upper()] on ASCII text. *)
Fixpoint upper (s : string) : string :=
  match s with
  | EmptyString => EmptyString
  | String c s' => String (upper_ascii c) (upper s')
  end.

(** [f'ACCOUNT_{num}_{field}'] *)
Definition account_key (num : N) (field : string) : string :=
  "ACCOUNT_" +:+ str_of_N num +:+ "_" +:+ field.

Definition account_numbers (environ : gmap string string) : gset N :=
  list_to_set (omap account_pattern (elements (dom environ))).

(** The body of the loop over [sorted(account_numbers)]: the descriptor
    appended for [num], if any. *)
Definition account_for (environ : gmap string string) (num : N) : option Account :=
  let email_addr := environ !! account_key num "EMAIL" in
  let password := default "" (environ !! account_key num "PASS") in
  let protocol := upper (default "IMAP" (environ !! account_key num "PROTOCOL")) in
  let default_server :=
    if String.eqb protocol "POP3" then "pop.gmail.com" else "imap.gmail.com" in
  let server := default default_server (environ !! account_key num "SERVER") in
  match email_addr with
  | Some addr =>
      if negb (String.eqb addr "")
      then Some {| email := addr; password := password;
                   server := server; protocol := Some protocol |}
      else None
  | None => None
  end.

Definition discover_accounts (environ : gmap string string) : list Account :=
  omap (account_for environ) (merge_sort N.le (elements (account_numbers environ))).

(** *** Fetching *)

Definition decode_email_header (net : Outside) (header_value : option string) : string :=
  match header_value with
  | None => "No Subject"
  | Some h =>
      if String.eqb h "" then "No Subject"
      else default h (decode_header net h)
  end.

(** The [for response_part in msg_data] loop: the exception that ends it
    early, if any, and [extracted_data]. *)
Fixpoint imap_parts (net : Outside) (user : string) (parts : list response_part)
    (extracted_data : list MessageRecord) : option exn * list MessageRecord :=
  match parts with
  | [] => (None, extracted_data)
  | NotTuple :: parts' => imap_parts net user parts' extracted_data
  | TuplePart (inl e) :: _ => (Some e, extracted_data)
  | TuplePart (inr msg) :: parts' =>
      imap_parts net user parts'
        (extracted_data ++
           [ {| Source_Account := user;
                Date := default "Unknown Date" (hdr_date msg);
                Sender := default "Unknown Sender" (hdr_from msg);
                Subject := decode_email_header net (hdr_subject msg) |} ])
  end.

(** The [try] inside the loop over [email_ids], for the message at
    position [idx]. *)
Definition imap_message_body (net : Outside) (s : imap_session) (user : string)
    (idx : nat) (extracted_data : list MessageRecord)
    : option exn * list MessageRecord :=
  match imap_fetch s idx with
  | inl e => (Some e, extracted_data)
  | inr (false, _) => (None, extracted_data)
  | inr (true, msg_data) => imap_parts net user msg_data extracted_data
  end.

(** [for idx, e_id in enumerate(email_ids, 1)], with its
    [except Exception: continue]. *)
Fixpoint imap_messages (net : Outside) (s : imap_session) (user : string)
    (idx : nat) (email_ids : list string) (extracted_data : list MessageRecord)
    : option exn * list MessageRecord :=
  match email_ids with
  | [] => (None, extracted_data)
  | _ :: email_ids' =>
      match imap_message_body net s user idx extracted_data with
      | (Some e, data) =>
          if isinstance e Exception
          then imap_messages net s user (S idx) email_ids' data
          else (Some e, data)
      | (None, data) => imap_messages net s user (S idx) email_ids' data
      end
  end.

(** The outer [try] block of [fetch_from_imap]: the exception that leaves
    it, if any, and [extracted_data] at that point. *)
Definition imap_try_body (net : Outside) (s : imap_session) (user : string)
    : option exn * list MessageRecord :=
  match imap_connect s with Some e => (Some e, []) | None =>
  match imap_login s with Some e => (Some e, []) | None =>
  match imap_select s with
  | inl e => (Some e, [])
  | inr false => (None, [])
  | inr true =>
  match imap_search s with
  | inl e => (Some e, [])
  | inr (false, _) => (None, [])
  | inr (true, email_ids) =>
  match imap_messages net s user 1 email_ids [] with
  | (Some e, data) => (Some e, data)
  | (None, data) =>
  match imap_close s with Some e => (Some e, data) | None =>
  match imap_logout s with Some e => (Some e, data) | None =>
  (None, data)
  end end end end end end end.

Equations? fetch_from_imap (cfg : Config) (net : Outside) (account_config : Account)
    (retry_count : nat) (w : World) : outcome (list MessageRecord) * World
    by wf (Z.to_nat (MAX_RETRIES cfg - Z.of_nat retry_count)) lt :=
  fetch_from_imap cfg net account_config retry_count w :=
    let w1 := opened IMAP (server account_config) w in
    match imap_try_body net (imap_server net (conns w)) (email account_config) with
    | (None, extracted_data) => (Return extracted_data, w1)
    | (Some e, extracted_data) =>
        if isinstance e IMAP4_error then
          match decide (Z.of_nat retry_count < MAX_RETRIES cfg) with
          | left _ =>
              fetch_from_imap cfg net account_config (S retry_count)
                (sleep (2 ^ Z.of_nat retry_count) w1)
          | right _ => (Return extracted_data, w1)
          end
        else if isinstance e TimeoutError then (Return extracted_data, w1)
        else if isinstance e Exception then (Return extracted_data, w1)
        else (Raise e, w1)
    end.
Proof. lia. Qed.

(** The [try] inside the POP3 loop, for message number [i]: the message is
    skipped when its date parses and is before [date_cutoff]. *)
Definition pop3_message_body (net : Outside) (s : pop3_session) (user : string)
    (date_cutoff : datetime) (i : nat) (extracted_data : list MessageRecord)
    : option exn * list MessageRecord :=
  match pop3_retr s i with
  | inl e => (Some e, extracted_data)
  | inr msg =>
      let date_str := default "" (hdr_date msg) in
      let record :=
        {| Source_Account := user;
           Date := date_str;
           Sender := default "Unknown Sender" (hdr_from msg);
           Subject := decode_email_header net (hdr_subject msg) |} in
      match parsedate_to_datetime net date_str with
      | Some msg_date =>
          if dt_ltb (drop_tzinfo msg_date) date_cutoff
          then (None, extracted_data)
          else (None, extracted_data ++ [record])
      | None => (None, extracted_data ++ [record])
      end
  end.

(** [for i in range(1, num_messages + 1)], entered at [i] with [remaining]
    messages to go, with its [except Exception: continue]. *)
Fixpoint pop3_messages (net : Outside) (s : pop3_session) (user : string)
    (date_cutoff : datetime) (i remaining : nat)
    (extracted_data : list MessageRecord) : option exn * list MessageRecord :=
  match remaining with
  | O => (None, extracted_data)
  | S remaining' =>
      match pop3_message_body net s user date_cutoff i extracted_data with
      | (Some e, data) =>
          if isinstance e Exception
          then pop3_messages net s user date_cutoff (S i) remaining' data
          else (Some e, data)
      | (None, data) => pop3_messages net s user date_cutoff (S i) remaining' data
      end
  end.

(** The outer [try] block of [fetch_from_pop3]. *)
Definition pop3_try_body (cfg : Config) (net : Outside) (s : pop3_session)
    (user : string) : option exn * list MessageRecord :=
  match pop3_connect s with Some e => (Some e, []) | None =>
  match pop3_user s with Some e => (Some e, []) | None =>
  match pop3_pass s with Some e => (Some e, []) | None =>
  match pop3_list s with
  | inl e => (Some e, [])
  | inr num_messages =>
  let date_cutoff := minus_days (pop3_now s) (DAYS_BACK cfg) in
  match pop3_messages net s user date_cutoff 1 num_messages [] with
  | (Some e, data) => (Some e, data)
  | (None, data) =>
  match pop3_quit s with Some e => (Some e, data) | None =>
  (None, data)
  end end end end end end.

Equations? fetch_from_pop3 (cfg : Config) (net : Outside) (account_config : Account)
    (retry_count : nat) (w : World) : outcome (list MessageRecord) * World
    by wf (Z.to_nat (MAX_RETRIES cfg - Z.of_nat retry_count)) lt :=
  fetch_from_pop3 cfg net account_config retry_count w :=
    let w1 := opened POP3 (server account_config) w in
    match pop3_try_body cfg net (pop3_server net (conns w)) (email account_config) with
    | (None, extracted_data) => (Return extracted_data, w1)
    | (Some e, extracted_data) =>
        if isinstance e error_proto then
          match decide (Z.of_nat retry_count < MAX_RETRIES cfg) with
          | left _ =>
              fetch_from_pop3 cfg net account_config (S retry_count)
                (sleep (2 ^ Z.of_nat retry_count) w1)
          | right _ => (Return extracted_data, w1)
          end
        else if isinstance e TimeoutError then (Return extracted_data, w1)
        else if isinstance e Exception then (Return extracted_data, w1)
        else (Raise e, w1)
    end.
Proof. lia. Qed.

Definition fetch_from_account (cfg : Config) (net : Outside) (account_config : Account)
    (retry_count : nat) (w : World) : outcome (list MessageRecord) * World :=
  let protocol := upper (default "IMAP" (protocol account_config)) in
  if String.eqb protocol "POP3"
  then fetch_from_pop3 cfg net account_config retry_count w
  else fetch_from_imap cfg net account_config retry_count w.

(** *** Sending *)

(** A dataframe built from the collected records: one row each.
    [dataframe.empty] holds exactly when there is no row. *)
Definition DataFrame : Type := list MessageRecord.

Definition empty (dataframe : DataFrame) : bool :=
  match dataframe with [] => true | _ :: _ => false end.

(** The [try] of one send attempt: the exception that leaves it, if any,
    and whether [sendmail] went through. *)
Definition smtp_try_body (s : smtp_session) : option exn * bool :=
  match smtp_connect s with Some e => (Some e, false) | None =>
  match smtp_starttls s with Some e => (Some e, false) | None =>
  match smtp_login s with Some e => (Some e, false) | None =>
  match smtp_sendmail s with Some e => (Some e, false) | None =>
  match smtp_quit s with Some e => (Some e, true) | None =>
  (None, true)
  end end end end end.

Definition sent (cfg : Config) (went : bool) (w : World) : World :=
  if went then did (SendMail (SENDER_EMAIL cfg) (RECIPIENT_EMAIL cfg)) w else w.

(** [for attempt in range(MAX_RETRIES)], over the attempts still to make.
    [Return true] is the [return True] of a successful attempt;
    [Return false] means the loop ended, by [break] or by exhaustion. *)
Fixpoint send_attempts (cfg : Config) (net : Outside) (attempts : list nat)
    (w : World) : outcome bool * World :=
  match attempts with
  | [] => (Return false, w)
  | attempt :: attempts' =>
      let (raised, went) := smtp_try_body (smtp_server net (conns w)) in
      let w1 := sent cfg went (opened SMTP (SMTP_SERVER cfg) w) in
      match raised with
      | None => (Return true, w1)
      | Some e =>
          if isinstance e SMTPAuthenticationError then (Return false, w1)
          else if isinstance e Exception then
            if Z.of_nat attempt <? MAX_RETRIES cfg - 1
            then send_attempts cfg net attempts' (sleep (2 ^ Z.of_nat attempt) w1)
            else send_attempts cfg net attempts' w1
          else (Raise e, w1)
      end
  end.

(** [range(n)] *)
Definition range (n : Z) : list nat := seq 0 (Z.to_nat n).

(** The report is written as a spreadsheet, or as CSV when that fails. *)
Definition write_report (cfg : Config) (net : Outside) (w : World)
    : outcome unit * World :=
  match excel_write net with
  | None => (Return tt, did (WriteExcel (REPORT_FILENAME cfg)) w)
  | Some e =>
      if isinstance e Exception then
        match csv_write net with
        | None => (Return tt, did (WriteCsv (REPORT_FILENAME cfg)) w)
        | Some e' => (Raise e', w)
        end
      else (Raise e, w)
  end.

(** The outer [try] of [send_consolidated_report]; composing the message
    has no effect outside the process and is left out. *)
Definition report_try_body (cfg : Config) (net : Outside) (w : World)
    : outcome bool * World :=
  match write_report cfg net w with
  | (Raise e, w1) => (Raise e, w1)
  | (Return _, w1) =>
      match attachment_open net with
      | Some e => (Raise e, w1)
      | None => send_attempts cfg net (range (MAX_RETRIES cfg)) w1
      end
  end.

Definition send_consolidated_report (cfg : Config) (net : Outside)
    (dataframe : DataFrame) (w : World) : outcome bool * World :=
  if empty dataframe then (Return false, w)
  else
    match report_try_body cfg net w with
    | (Raise e, w1) =>
        if isinstance e Exception then (Return false, w1) else (Raise e, w1)
    | (Return b, w1) => (Return b, w1)
    end.

(** *** The main program *)

(** The loop over [ACCOUNTS_TO_CHECK], filling [master_list]. *)
Fixpoint collect (cfg : Config) (net : Outside) (accounts : list Account)
    (master_list : list MessageRecord) (w : World)
    : outcome (list MessageRecord) * World :=
  match accounts with
  | [] => (Return master_list, w)
  | account :: accounts' =>
      if String.eqb (password account) ""
      then collect cfg net accounts' master_list w
      else
        match fetch_from_account cfg net account 0 w with
        | (Return account_data, w1) =>
            collect cfg net accounts' (master_list ++ account_data) w1
        | (Raise e, w1) => (Raise e, w1)
        end
  end.

(** The [__main__] block; the value returned is the exit status. *)
Definition main (cfg : Config) (net : Outside) (w : World) : outcome Z * World :=
  if String.eqb (SENDER_EMAIL cfg) "" || String.eqb (SENDER_PASS cfg) ""
  then (Return 1, w)
  else if match ACCOUNTS_TO_CHECK cfg with [] => true | _ => false end
  then (Return 1, w)
  else if negb (existsb (fun acc => negb (String.eqb (password acc) ""))
                  (ACCOUNTS_TO_CHECK cfg))
  then (Return 1, w)
  else
    match collect cfg net (ACCOUNTS_TO_CHECK cfg) [] w with
    | (Raise e, w1) => (Raise e, w1)
    | (Return master_list, w1) =>
        if negb (empty master_list) then
          match send_consolidated_report cfg net master_list w1 with
          | (Return success, w2) => (Return (if success then 0 else 1), w2)
          | (Raise e, w2) => (Raise e, w2)
          end
        else (Return 0, w1)
    end.

(** *** Observations used in the statements *)

(** [ACCOUNT_<n>_EMAIL] is set to a non-empty value. *)
Definition has_address (environ : gmap string string) (n : N) : Prop :=
  exists addr, environ !! account_key n "EMAIL" = Some addr /\ addr <> "".

(** The effects of fetching mail: connections to a mailbox and pauses. *)
Definition fetch_effect (ef : effect) : bool :=
  match ef with
  | Connect IMAP _ | Connect POP3 _ | Sleep _ => true
  | _ => false
  end.

(** The effects of reporting: writing the artifact, and talking to the
    mail-submission server. *)
Definition report_effect (ef : effect) : bool :=
  match ef with
  | WriteExcel _ | WriteCsv _ | SendMail _ _ | Connect SMTP _ => true
  | _ => false
  end.

(** [w'] is [w] after some more effects, all of the kind [ok]. *)
Definition extends (w w' : World) (ok : effect -> bool) : Prop :=
  exists added, trace w' = trace w ++ added /\ Forall (fun ef => ok ef = true) added.

(** The record the POP3 loop builds for a message. *)
Definition pop3_record (net : Outside) (user : string) (msg : Message) : MessageRecord :=
  {| Source_Account := user;
     Date := default "" (hdr_date msg);
     Sender := default "Unknown Sender" (hdr_from msg);
     Subject := decode_email_header net (hdr_subject msg) |}.

(** The record the POP3 loop keeps for message number [i], if any: the
    message must be retrieved, and its date must not parse to one before
    the cutoff. *)
Definition pop3_kept (net : Outside) (s : pop3_session) (user : string)
    (date_cutoff : datetime) (i : nat) : option MessageRecord :=
  match pop3_retr s i with
  | inl _ => None
  | inr msg =>
      match parsedate_to_datetime net (default "" (hdr_date msg)) with
      | Some msg_date =>
          if dt_ltb (drop_tzinfo msg_date) date_cutoff then None
          else Some (pop3_record net user msg)
      | None => Some (pop3_record net user msg)
      end
  end.

(** The record the IMAP loop builds for a parsed message. *)
Definition imap_record (net : Outside) (user : string) (msg : Message) : MessageRecord :=
  {| Source_Account := user;
     Date := default "Unknown Date" (hdr_date msg);
     Sender := default "Unknown Sender" (hdr_from msg);
     Subject := decode_email_header net (hdr_subject msg) |}.

(** The records of the parts of one fetched message, up to the first part
    that cannot be parsed. *)
Fixpoint part_records (net : Outside) (user : string) (parts : list response_part)
    : list MessageRecord :=
  match parts with
  | [] => []
  | NotTuple :: parts' => part_records net user parts'
  | TuplePart (inl _) :: _ => []
  | TuplePart (inr msg) :: parts' => imap_record net user msg :: part_records net user parts'
  end.

(** The records the IMAP loop keeps for the message at position [idx]. *)
Definition imap_kept (net : Outside) (s : imap_session) (user : string) (idx : nat)
    : list MessageRecord :=
  match imap_fetch s idx with
  | inr (true, msg_data) => part_records net user msg_data
  | _ => []
  end.

(** The attempt made on connection number [n] is left by a protocol error. *)
Definition imap_attempt_fails (net : Outside) (user : string) (n : nat) : Prop :=
  exists e data,
    imap_try_body net (imap_server net n) user = (Some e, data)
    /\ isinstance e IMAP4_error = true.

Definition pop3_attempt_fails (cfg : Config) (net : Outside) (user : string) (n : nat) : Prop :=
  exists e data,
    pop3_try_body cfg net (pop3_server net n) user = (Some e, data)
    /\ isinstance e error_proto = true.



(** The seconds a trace spends in [sleep]. *)
Fixpoint slept (tr : list effect) : Z :=
  match tr with
  | [] => 0
  | Sleep seconds :: tr' => seconds + slept tr'
  | _ :: tr' => slept tr'
  end.

(** From [w] to [w'] a fetch started at retry count [k] stayed within its
    allowance of connections and of sleep. *)
Definition within_budget (cfg : Config) (k : nat) (w w' : World) : Prop :=
  (conns w < conns w' <= conns w + S (Z.to_nat (MAX_RETRIES cfg - Z.of_nat k)))%nat
  /\ slept (trace w) <= slept (trace w')
     <= slept (trace w) + Z.max 0 (2 ^ MAX_RETRIES cfg - 2 ^ Z.of_nat k).

(** A record carries the address of the account [user]. *)
Definition from_account (user : string) (r : MessageRecord) : Prop :=
  Source_Account r = user.

(** *** Sample inputs *)

Definition quiet_imap : imap_session :=
  {| imap_connect := None; imap_login := None; imap_select := inr true;
     imap_search := inr (true, []); imap_fetch := fun _ => inr (true, []);
     imap_close := None; imap_logout := None |}.

(** A server that refuses the login. *)
Definition refusing_imap : imap_session :=
  {| imap_connect := None; imap_login := Some IMAP4_error; imap_select := inr true;
     imap_search := inr (true, []); imap_fetch := fun _ => inr (true, []);
     imap_close := None; imap_logout := None |}.

Definition undated : Message :=
  {| hdr_subject := Some "hello"; hdr_from := Some "a@x"; hdr_date := None |}.

Definition quiet_pop3 : pop3_session :=
  {| pop3_connect := None; pop3_user := None; pop3_pass := None;
     pop3_list := inr 2%nat; pop3_retr := fun _ => inr undated;
     pop3_quit := None; pop3_now := {| wall := 1000; tzinfo := None |} |}.

(** A server that accepts the connection and refuses the login. *)
Definition refusing_smtp : smtp_session :=
  {| smtp_connect := None; smtp_starttls := None;
     smtp_login := Some SMTPAuthenticationError;
     smtp_sendmail := None; smtp_quit := None |}.

Definition sample_net : Outside :=
  {| imap_server := fun n => match n with O => refusing_imap | _ => quiet_imap end;
     pop3_server := fun _ => quiet_pop3;
     smtp_server := fun _ => refusing_smtp;
     decode_header := fun h => Some h;
     parsedate_to_datetime := fun _ => None;
     excel_write := None;
     csv_write := None;
     attachment_open := None |}.


Definition sample_account : Account :=
  {| email := "box@example.com"; password := "secret";
     server := "imap.example.com"; protocol := Some "IMAP" |}.

Definition sample_cfg : Config :=
  {| ACCOUNTS_TO_CHECK := [sample_account];
     SENDER_EMAIL := "bot@example.com";
     SENDER_PASS := "secret";
     SMTP_SERVER := "smtp.gmail.com";
     SMTP_PORT := 587;
     RECIPIENT_EMAIL := "manager@yourcompany.com";
     REPORT_FILENAME := "consolidated_email_report.xlsx";
     DAYS_BACK := 7;
     IMAP_TIMEOUT := 60;
     MAX_RETRIES := 3 |}.

Definition fresh : World := {| conns := 0; trace := [] |}.

Definition pop3_account : Account :=
  {| email := "pop@example.com"; password := "secret";
     server := "pop.example.com"; protocol := Some "pop3" |}.

(** The sample settings with retries switched off. *)
Definition no_retry_cfg : Config :=
  {| ACCOUNTS_TO_CHECK := [];
     SENDER_EMAIL := "bot@example.com";
     SENDER_PASS := "secret";
     SMTP_SERVER := "smtp.gmail.com";
     SMTP_PORT := 587;
     RECIPIENT_EMAIL := "manager@yourcompany.com";
     REPORT_FILENAME := "consolidated_email_report.xlsx";
     DAYS_BACK := 7;
     IMAP_TIMEOUT := 60;
     MAX_RETRIES := 0 |}.

(** A server that takes the message. *)
Definition accepting_smtp : smtp_session :=
  {| smtp_connect := None; smtp_starttls := None; smtp_login := None;
     smtp_sendmail := None; smtp_quit := None |}.

(** An outside world where neither report format can be written. *)
Definition readonly_net : Outside :=
  {| imap_server := fun _ => quiet_imap;
     pop3_server := fun _ => quiet_pop3;
     smtp_server := fun _ => accepting_smtp;
     decode_header := fun h => Some h;
     parsedate_to_datetime := fun _ => None;
     excel_write := Some OSError_;
     csv_write := Some OSError_;
     attachment_open := None |}.

(** The IMAP server refuses the first two logins, then works. *)
Definition flaky_net : Outside :=
  {| imap_server := fun n => match n with
                             | O | S O => refusing_imap
                             | _ => quiet_imap
                             end;
     pop3_server := fun _ => quiet_pop3;
     smtp_server := fun _ => accepting_smtp;
     decode_header := fun h => Some h;
     parsedate_to_datetime := fun _ => None;
     excel_write := None;
     csv_write := None;
     attachment_open := None |}.








(** An outside world where everything works. *)
Definition friendly_net : Outside :=
  {| imap_server := fun _ => quiet_imap;
     pop3_server := fun _ => quiet_pop3;
     smtp_server := fun _ => accepting_smtp;
     decode_header := fun h => Some h;
     parsedate_to_datetime := fun _ => None;
     excel_write := None;
     csv_write := None;
     attachment_open := None |}.

End EmailReport.

(** ** Properties of the file-listing transform *)

Module ListFilesFacts.
Import Py ListFiles.

Lemma yields_app (a b : list event) : yields (a ++ b) = yields a ++ yields b.
Proof. unfold yields. apply omap_app. Qed.

Lemma yields_flat_map {A : Type} (f : A -> list event) (l : list A) :
  yields (flat_map f l) = flat_map (fun x => yields (f x)) l.
Proof.
  induction l as [|x l IH]; simpl; [reflexivity|].
  rewrite yields_app, IH. reflexivity.
Qed.

Lemma iter_files_directory recursive max_depth path cur_depth children :
  iter_files recursive max_depth path cur_depth (Directory None children)
  = flat_map (iter_entry recursive max_depth path cur_depth) children.
Proof. reflexivity. Qed.

Lemma iter_files_resolve recursive max_depth path cur_depth n :
  iter_files recursive max_depth path cur_depth n
  = iter_files recursive max_depth path cur_depth (resolve n).
Proof. induction n; simpl; auto. Qed.

(** With [max_depth = 0] an entry of the top directory contributes itself
    when it is a regular file, and nothing otherwise. *)
Lemma iter_entry_depth0 recursive path e :
  yields (iter_entry recursive (Some 0) path 0 e)
  = match e with
    | Entry name None RegFile => [(join path name, 0)]
    | _ => []
    end.
Proof.
  destruct e as [name [err|] kind]; simpl.
  - destruct err; reflexivity.
  - destruct kind as [| scan children | target |]; simpl; try reflexivity.
    rewrite andb_false_r. reflexivity.
Qed.

Lemma max_depth0_walk recursive path children :
  yields (iter_files recursive (Some 0) path 0 (Directory None children))
  = probed_child_files path children.
Proof.
  rewrite iter_files_directory, yields_flat_map.
  unfold probed_child_files.
  induction children as [|e l IH]; simpl; [reflexivity|].
  rewrite IH, iter_entry_depth0.
  destruct e as [name [err|] [| | |]]; reflexivity.
Qed.

(** Induction over a directory tree: entries and nodes together. *)
Section TreeInduction.
Variable P : node -> Prop.
Variable Q : entry -> Prop.
Hypothesis P_file : P RegFile.
Hypothesis P_special : P Special.
Hypothesis P_link : forall target, P target -> P (SymLink target).
Hypothesis P_dir : forall scan children, Forall Q children -> P (Directory scan children).
Hypothesis Q_entry : forall name probe kind, P kind -> Q (Entry name probe kind).

Fixpoint node_tree_ind (n : node) : P n :=
  match n with
  | RegFile => P_file
  | Special => P_special
  | SymLink target => P_link target (node_tree_ind target)
  | Directory scan children =>
      P_dir scan children
        ((fix all (l : list entry) : Forall Q l :=
            match l with
            | [] => List.Forall_nil Q
            | e :: l' => List.Forall_cons Q e l' (entry_tree_ind e) (all l')
            end) children)
  end
with entry_tree_ind (e : entry) : Q e :=
  match e with
  | Entry name probe kind => Q_entry name probe kind (node_tree_ind kind)
  end.
End TreeInduction.

(** The loop of the transform adds one entity per yielded pair and counts
    it in [total]. *)
Lemma consume_fold w folder_path evs r total :
  foldl (consume w folder_path) (r, total) evs
  = ({| entities := entities r ++ map (entity_of w folder_path) (yields evs);
        messages := messages r ++ loop_messages w evs |},
     total + Z.of_nat (length (yields evs))).
Proof.
  revert r total. induction evs as [|ev evs IH]; intros r total.
  - simpl. rewrite !app_nil_r, Z.add_0_r. destruct r; reflexivity.
  - change (foldl (consume w folder_path) (r, total) (ev :: evs))
      with (foldl (consume w folder_path) (consume w folder_path (r, total) ev) evs).
    destruct ev as [fp d | m].
    + change (yields (Yield fp d :: evs)) with ((fp, d) :: yields evs).
      change (loop_messages w (Yield fp d :: evs))
        with (match getsize w fp with
              | inl e => [size_error fp e]
              | inr _ => []
              end ++ loop_messages w evs).
      rewrite length_cons, Nat2Z.inj_succ, map_cons.
      unfold consume, entity_of at 1. cbn [fst snd].
      destruct (getsize w fp) as [e|n]; rewrite IH; cbn [entities messages addEntity addUIMessage];
        rewrite <- !app_assoc; f_equal; lia.
    + change (consume w folder_path (r, total) (Message m)) with (addUIMessage r m, total).
      rewrite IH. cbn [entities messages addUIMessage]. rewrite <- !app_assoc. reflexivity.
Qed.



(** What the transform leaves in the response when the input path is a
    directory. *)
Lemma create_entities_directory w request response root :
  lookup w (Value request) = Some root ->
  is_dir root = true ->
  let evs := iter_files (recursive w request) (max_depth w request)
               (Value request) 0 root in
  create_entities w request response
  = {| entities := entities response ++ map (entity_of w (Value request)) (yields evs);
       messages := (messages response ++ loop_messages w evs)
                   ++ [summary (0 + Z.of_nat (length (yields evs))) (Value request)
                         (recursive w request) (max_depth w request)] |}.
Proof.
  intros Hroot Hdir evs. unfold create_entities.
  rewrite Hroot, Hdir. cbn [negb]. rewrite consume_fold. reflexivity.
Qed.

Lemma req_maxdepth_truthy request v :
  _get_req_param request "max_depth" = v -> truthy v = true ->
  req_maxdepth request = v.
Proof. intros Hv Ht. unfold req_maxdepth, py_or. rewrite Hv, Ht. reflexivity. Qed.

(** *** The claims *)

(** C1 (as amended).  When the input path is a directory whose listing
    succeeds and the depth limit in effect is 0, the transform adds exactly
    one entity, of depth 0, per direct child that is a regular file (and
    whose type probe does not raise), in listing order, and none for any
    deeper entry; this holds with recursion enabled or not. *)
Theorem C1_max_depth_zero_direct_children w request response root children :
  lookup w (Value request) = Some root ->
  resolve root = Directory None children ->
  max_depth w request = Some 0 ->
  entities (create_entities w request response)
  = entities response
    ++ map (entity_of w (Value request)) (probed_child_files (Value request) children).
Proof.
  intros Hroot Hres Hmd.
  assert (Hdir : is_dir root = true) by (unfold is_dir; rewrite Hres; reflexivity).
  rewrite (create_entities_directory _ _ _ _ Hroot Hdir). cbn [entities].
  rewrite Hmd, iter_files_resolve, Hres, max_depth0_walk. reflexivity.
Qed.

Lemma C1_max_depth_zero_witness :
  recursive (sample_world sample_tree ∅) (sample_request {["max_depth" := PyStr "0"]}) = true
  /\ map value (entities (create_entities (sample_world sample_tree ∅)
                   (sample_request {["max_depth" := PyStr "0"]}) no_response))
     = ["/data/a.txt"].
Proof.
  split; [reflexivity|].
  rewrite (C1_max_depth_zero_direct_children (sample_world sample_tree ∅)
             (sample_request {["max_depth" := PyStr "0"]}) no_response sample_tree
             [ Entry "a.txt" None RegFile;
               Entry "sub" None (Directory None [Entry "b.txt" None RegFile]);
               Entry "link" None (SymLink RegFile) ]);
    reflexivity.
Defined.

(** C1 as stated fails on a directory that exists but cannot be listed:
    it has a regular file as a direct child, the settings in effect are
    recursion with depth limit 0, and the transform adds no entity. *)
Lemma C1_counterexample_unreadable_root :
  let children := [Entry "a.txt" None RegFile] in
  let w := sample_world (Directory (Some (PermissionError "denied")) children) ∅ in
  let request := sample_request {["max_depth" := PyStr "0"]} in
  valid_input w request = true
  /\ recursive w request = true
  /\ max_depth w request = Some 0
  /\ direct_child_files "/data" children = [("/data/a.txt", 0)]
  /\ entities (create_entities w request no_response) = [].
Proof. repeat split; reflexivity. Qed.




Lemma iter_entry_without_links e :
  forall recursive max_depth path cur_depth,
    iter_entry recursive max_depth path cur_depth e
    = iter_entry recursive max_depth path cur_depth (without_links e).
Proof.
  revert e.
  apply (entry_tree_ind
    (fun n => match n with
              | Directory scan children =>
                  forall recursive max_depth path cur_depth,
                    iter_files recursive max_depth path cur_depth (Directory scan children)
                    = iter_files recursive max_depth path cur_depth
                        (Directory scan (map without_links children))
              | _ => True
              end)
    (fun e => forall recursive max_depth path cur_depth,
       iter_entry recursive max_depth path cur_depth e
       = iter_entry recursive max_depth path cur_depth (without_links e)));
    try exact I.
  - intros target _. exact I.
  - intros scan children IH recursive max_depth path cur_depth.
    destruct scan as [err|]; [reflexivity|].
    rewrite !iter_files_directory.
    induction IH as [|e l He Hl IHl]; [reflexivity|].
    simpl. rewrite He, IHl. reflexivity.
  - intros name probe kind IH recursive max_depth path cur_depth.
    destruct probe as [err|]; [reflexivity|].
    destruct kind as [| scan children | target |]; try reflexivity.
    cbn [without_links iter_entry].
    destruct (recursive && may_descend max_depth cur_depth); [apply IH | reflexivity].
Qed.

(** C9.  A directory entry that is a symbolic link, to a file or to a
    directory, yields no record and nothing from below it, at any depth and
    under any setting; and the whole walk of a directory is the walk of the
    same directory with every link below it replaced by a special file, so
    that no link target is ever looked at. *)
Theorem C9_symlink_entries_never_followed :
  (forall recursive max_depth path cur_depth name probe target,
     yields (iter_entry recursive max_depth path cur_depth
               (Entry name probe (SymLink target))) = [])
  /\ (forall recursive max_depth path cur_depth scan children,
        iter_files recursive max_depth path cur_depth (Directory scan children)
        = iter_files recursive max_depth path cur_depth
            (Directory scan (map without_links children))).
Proof.
  split.
  - intros recursive max_depth path cur_depth name [[msg|msg]|] target; reflexivity.
  - intros recursive max_depth path cur_depth scan children.
    destruct scan as [err|]; [reflexivity|].
    rewrite !iter_files_directory.
    induction children as [|e l IH]; [reflexivity|].
    simpl. rewrite <- iter_entry_without_links, IH. reflexivity.
Qed.

(** C10 (as amended).  When the depth override resolved from the request
    parameters ([max_depth] if it is truthy, else [maxdepth]) is not
    [None] and [int()] rejects it, the depth limit in effect is [None],
    whatever the environment holds. *)
Theorem C10_unparseable_override_is_unbounded w request :
  is_none (req_maxdepth request) = false ->
  py_int (req_maxdepth request) = None ->
  max_depth w request = None.
Proof.
  intros Hnone Hint. unfold max_depth. rewrite Hnone. exact Hint.
Qed.

Lemma C10_unparseable_override_witness :
  environ (sample_world sample_tree {["LISTFILES_MAXDEPTH" := "3"]})
    !! "LISTFILES_MAXDEPTH" = Some "3"
  /\ max_depth (sample_world sample_tree {["LISTFILES_MAXDEPTH" := "3"]})
       (sample_request {["max_depth" := PyStr "deep"]}) = None.
Proof.
  split; [reflexivity|].
  apply (C10_unparseable_override_is_unbounded
           (sample_world sample_tree {["LISTFILES_MAXDEPTH" := "3"]})
           (sample_request {["max_depth" := PyStr "deep"]})); reflexivity.
Defined.

(** C10 as stated fails for an override that is supplied as the empty
    string: [int('')] raises, yet the environment variable is consulted
    and its value becomes the depth limit. *)
Lemma C10_counterexample_empty_override :
  let w := sample_world sample_tree {["LISTFILES_MAXDEPTH" := "3"]} in
  let request := sample_request {["max_depth" := PyStr ""]} in
  _get_req_param request "max_depth" = PyStr ""
  /\ py_int (PyStr "") = None
  /\ max_depth w request = Some 3.
Proof. repeat split; reflexivity. Qed.

(** *** Further properties of the walker *)


Lemma Forall_flat_map {A B : Type} (P : B -> Prop) (f : A -> list B) (l : list A) :
  Forall (fun x => Forall P (f x)) l -> Forall P (flat_map f l).
Proof.
  induction 1 as [|x l Hx _ IH]; simpl; [constructor|].
  apply Forall_app. split; assumption.
Qed.

(** The depth of a record lies between the depth the walk starts at and
    the depth limit; without recursion it is the starting depth. *)
Lemma yields_depth n :
  forall recursive max_depth path cur_depth,
    Forall (fun y : string * Z =>
              cur_depth <= y.2
              /\ (recursive = false -> y.2 = cur_depth)
              /\ (forall m, max_depth = Some m -> y.2 <= Z.max cur_depth m))
      (yields (iter_files recursive max_depth path cur_depth n)).
Proof.
  revert n.
  apply (node_tree_ind
    (fun n => forall recursive max_depth path cur_depth,
       Forall (fun y : string * Z =>
                 cur_depth <= y.2
                 /\ (recursive = false -> y.2 = cur_depth)
                 /\ (forall m, max_depth = Some m -> y.2 <= Z.max cur_depth m))
         (yields (iter_files recursive max_depth path cur_depth n)))
    (fun e => forall recursive max_depth path cur_depth,
       Forall (fun y : string * Z =>
                 cur_depth <= y.2
                 /\ (recursive = false -> y.2 = cur_depth)
                 /\ (forall m, max_depth = Some m -> y.2 <= Z.max cur_depth m))
         (yields (iter_entry recursive max_depth path cur_depth e)))).
  - intros. constructor.
  - intros. constructor.
  - intros target IH recursive max_depth path cur_depth. apply IH.
  - intros scan children IH recursive max_depth path cur_depth.
    destruct scan as [[msg|msg]|]; [constructor | constructor |].
    rewrite iter_files_directory, yields_flat_map. apply Forall_flat_map.
    eapply Forall_impl; [exact IH|]. intros e He. apply He.
  - intros name probe kind IH recursive max_depth path cur_depth.
    destruct probe as [[msg|msg]|]; [constructor | constructor |].
    destruct kind as [| scan children | target |]; cbn [iter_entry].
    + repeat constructor; cbn [snd]; lia.
    + destruct recursive; cbn [andb]; [|constructor].
      destruct (may_descend max_depth cur_depth) eqn:Hd; [|constructor].
      eapply Forall_impl; [apply IH|].
      intros y (Hlo & _ & Hhi). split; [lia|]. split; [discriminate|].
      intros m ->. specialize (Hhi m eq_refl). cbn [may_descend] in Hd.
      apply Z.ltb_lt in Hd. lia.
    + constructor.
    + constructor.
Qed.

(** X1.  Every record the walker yields has a depth that is at least the
    depth the walk started at; when a depth limit [m] is set the depth is
    at most [max(start, m)], and when recursion is off it is the starting
    depth itself. *)
Theorem X1_record_depth_bounds recursive max_depth path cur_depth n :
  Forall (fun y : string * Z =>
            cur_depth <= y.2
            /\ (recursive = false -> y.2 = cur_depth)
            /\ (forall m, max_depth = Some m -> y.2 <= Z.max cur_depth m))
    (yields (iter_files recursive max_depth path cur_depth n)).
Proof. apply yields_depth. Qed.

Lemma X1_record_depth_witness :
  yields (iter_files true (Some 1) "/data" 0 sample_tree)
  = [("/data/a.txt", 0); ("/data/sub/b.txt", 1)]
  /\ Forall (fun y : string * Z => 0 <= y.2 /\ y.2 <= Z.max 0 1)
       (yields (iter_files true (Some 1) "/data" 0 sample_tree)).
Proof.
  split; [reflexivity|].
  eapply Forall_impl; [apply (X1_record_depth_bounds true (Some 1) "/data" 0 sample_tree)|].
  intros y (Hlo & _ & Hhi). split; [exact Hlo | apply (Hhi 1 eq_refl)].
Defined.












(** *** Paths of the records *)

Lemma string_app_assoc (a b c : string) : (a +:+ b) +:+ c = a +:+ (b +:+ c).
Proof.
  induction a as [|x a IH]; [reflexivity|].
  change (String x ((a +:+ b) +:+ c) = String x (a +:+ (b +:+ c))).
  rewrite IH. reflexivity.
Qed.

Lemma join_extends path name :
  name <> "" -> exists rest, join path name = path +:+ rest /\ rest <> "".
Proof.
  intros Hname. unfold join.
  destruct (String.eqb path "" || ends_with_sep path).
  - exists name. split; [reflexivity | assumption].
  - exists ("/" +:+ name). split; [reflexivity | discriminate].
Qed.

Lemma string_app_nonempty (a b : string) : b <> "" -> a +:+ b <> "".
Proof. destruct a; simpl; [auto | discriminate]. Qed.

Lemma yields_under_entry e :
  Forall named (all_entries e) ->
  forall recursive max_depth path cur_depth,
    Forall (fun y : string * Z => exists rest, y.1 = path +:+ rest /\ rest <> "")
      (yields (iter_entry recursive max_depth path cur_depth e)).
Proof.
  revert e.
  apply (entry_tree_ind
    (fun n => match n with
              | Directory scan children =>
                  Forall named (flat_map all_entries children) ->
                  forall recursive max_depth path cur_depth,
                    Forall (fun y : string * Z =>
                              exists rest, y.1 = path +:+ rest /\ rest <> "")
                      (yields (iter_files recursive max_depth path cur_depth
                                 (Directory scan children)))
              | _ => True
              end)
    (fun e => Forall named (all_entries e) ->
       forall recursive max_depth path cur_depth,
         Forall (fun y : string * Z => exists rest, y.1 = path +:+ rest /\ rest <> "")
           (yields (iter_entry recursive max_depth path cur_depth e))));
    try exact I.
  - intros target _. exact I.
  - intros scan children IH Hnamed recursive max_depth path cur_depth.
    destruct scan as [[msg|msg]|]; [constructor | constructor |].
    rewrite iter_files_directory, yields_flat_map.
    induction IH as [|e l He _ IHl]; [constructor|].
    simpl in Hnamed |- *. apply Forall_app in Hnamed as [Hhd Htl].
    apply Forall_app. split; [apply He, Hhd | apply IHl, Htl].
  - intros name probe kind IH Hnamed recursive max_depth path cur_depth.
    cbn [all_entries] in Hnamed. apply Forall_cons in Hnamed as [Hname Hsub].
    cbn [named] in Hname.
    destruct probe as [[msg|msg]|]; [constructor | constructor |].
    destruct (join_extends path name Hname) as (rest & Hjoin & Hrest).
    destruct kind as [| scan children | target |]; cbn [iter_entry].
    + repeat constructor. exists rest. split; [exact Hjoin | exact Hrest].
    + destruct (recursive && may_descend max_depth cur_depth); [|constructor].
      eapply Forall_impl; [apply IH, Hsub|].
      intros y (rest' & Hy & Hrest'). exists (rest +:+ rest'). split.
      * rewrite Hy, Hjoin. apply string_app_assoc.
      * apply string_app_nonempty, Hrest'.
    + constructor.
    + constructor.
Qed.

(** X5.  In a directory whose entries all have a name, every record the
    walker yields has a path that starts with the path of the directory
    walked and goes on beyond it: nothing outside the input directory is
    ever reported. *)
Theorem X5_records_lie_under_the_root recursive max_depth path cur_depth children :
  Forall named (flat_map all_entries children) ->
  Forall (fun y : string * Z => exists rest, y.1 = path +:+ rest /\ rest <> "")
    (yields (iter_files recursive max_depth path cur_depth (Directory None children))).
Proof.
  intros Hnamed. rewrite iter_files_directory, yields_flat_map.
  induction children as [|e l IH]; [constructor|].
  simpl in Hnamed |- *. apply Forall_app in Hnamed as [Hhd Htl].
  apply Forall_app. split; [apply yields_under_entry, Hhd | apply IH, Htl].
Qed.

Lemma X5_records_under_root_witness :
  Forall (fun y : string * Z => exists rest, y.1 = "/data" +:+ rest /\ rest <> "")
    (yields (iter_files true None "/data" 0 sample_tree)).
Proof.
  apply (X5_records_lie_under_the_root true None "/data" 0
           [ Entry "a.txt" None RegFile;
             Entry "sub" None (Directory None [Entry "b.txt" None RegFile]);
             Entry "link" None (SymLink RegFile) ]).
  repeat constructor; discriminate.
Defined.

Lemma drop_basename_no_sep (l rest : list ascii) :
  Forall (fun c => c <> "/"%char) l ->
  drop_basename (l ++ rest) = drop_basename rest.
Proof.
  induction 1 as [|c l Hc _ IH]; [reflexivity|].
  simpl. destruct (Ascii.eqb_spec c "/"); [contradiction | exact IH].
Qed.

Lemma rev_last_not_sep (s : string) :
  s <> "" -> ends_with_sep s = false ->
  exists c l, rev (String.list_ascii_of_string s) = c :: l /\ c <> "/"%char.
Proof.
  induction s as [|c s IH]; [congruence|]. intros _ Hsep.
  destruct s as [|c' s'].
  - exists c, []. split; [reflexivity|].
    simpl in Hsep. intros ->. discriminate Hsep.
  - destruct IH as (x & l & Hrev & Hx); [discriminate | exact Hsep |].
    exists x, (l ++ [c]). split; [|exact Hx].
    change (String.list_ascii_of_string (String c (String c' s')))
      with (c :: String.list_ascii_of_string (String c' s')).
    cbn [rev]. rewrite Hrev. reflexivity.
Qed.

Lemma dirname_join path name :
  ends_with_sep path = false ->
  Forall (fun c => c <> "/"%char) (String.list_ascii_of_string name) ->
  dirname (join path name) = path.
Proof.
  intros Hsep Hname. unfold join, dirname. rewrite Hsep, orb_false_r.
  assert (Hrevname : Forall (fun c => c <> "/"%char)
                       (rev (String.list_ascii_of_string name)))
    by (apply Forall_rev, Hname).
  destruct (String.eqb_spec path "") as [->|Hne].
  - change ("" +:+ name) with name.
    rewrite <- (app_nil_r (rev (String.list_ascii_of_string name))).
    rewrite drop_basename_no_sep by exact Hrevname.
    reflexivity.
  - destruct (rev_last_not_sep path Hne Hsep) as (c & l & Hrev & Hc).
    assert (Hlist : String.list_ascii_of_string (path +:+ "/" +:+ name)
                    = String.list_ascii_of_string path
                      ++ "/"%char :: String.list_ascii_of_string name).
    { clear. induction path as [|x path IH]; simpl; [reflexivity|]. rewrite IH.
      reflexivity. }
    rewrite Hlist, rev_app_distr. cbn [rev]. rewrite <- !app_assoc.
    rewrite drop_basename_no_sep by exact Hrevname.
    cbn [app drop_basename rstrip_sep Ascii.eqb Bool.eqb].
    rewrite Hrev. cbn [rstrip_sep].
    destruct (Ascii.eqb_spec c "/"); [contradiction|].
    rewrite <- Hrev, rev_involutive.
    apply String.string_of_list_ascii_of_string.
Qed.

(** X6.  [dirname] undoes [join]: for a directory path that does not end
    in a separator and an entry name without separator, the [parent]
    property of the entity added for that entry is the directory it was
    listed in. *)
Theorem X6_parent_of_joined_path w folder_path path name depth size :
  ends_with_sep path = false ->
  Forall (fun c => c <> "/"%char) (String.list_ascii_of_string name) ->
  dirname (join path name) = path
  /\ {| fieldName := "parent"; displayName := "Parent";
        matchingRule := "strict"; propValue := PyStr path |}
     ∈ properties (file_entity w folder_path (join path name) depth size).
Proof.
  intros Hsep Hname. pose proof (dirname_join path name Hsep Hname) as Hd.
  split; [exact Hd|]. unfold file_entity. cbn [properties]. rewrite Hd.
  apply elem_of_app. left. do 2 apply elem_of_cons, or_intror.
  apply elem_of_cons. left. reflexivity.
Qed.

Lemma X6_parent_witness : dirname (join "/data/sub" "b.txt") = "/data/sub".
Proof.
  apply (X6_parent_of_joined_path (sample_world sample_tree ∅) "/data"
           "/data/sub" "b.txt" 1 None); [reflexivity|].
  repeat constructor; discriminate.
Defined.

(** *** The repository's tests, replayed on the model *)

(** [test_listfiles_recursive]: with [recursive] set in the request, the
    file of the sub-directory is listed after the file of the root. *)
Example listfiles_recursive :
  map value (entities (create_entities (sample_world sample_tree ∅)
                         (sample_request {["recursive" := PyBool true]}) no_response))
  = ["/data/a.txt"; "/data/sub/b.txt"]
  /\ messages (create_entities (sample_world sample_tree ∅)
                 (sample_request {["recursive" := PyBool true]}) no_response)
     = [("Added 2 file(s) from /data (recursive)", None)].
Proof. split; reflexivity. Qed.

(** [test_listfiles_nonrecursive]: [recursive] set to [False]. *)
Example listfiles_nonrecursive :
  map value (entities (create_entities (sample_world sample_tree ∅)
                         (sample_request {["recursive" := PyBool false]}) no_response))
  = ["/data/a.txt"]
  /\ messages (create_entities (sample_world sample_tree ∅)
                 (sample_request {["recursive" := PyBool false]}) no_response)
     = [("Added 1 file(s) from /data", None)].
Proof. split; reflexivity. Qed.

(** An integer 0 passed as [max_depth] is falsy, so the [or] of line 57
    drops it and the walk is unbounded. *)
Example listfiles_integer_zero_dropped :
  max_depth (sample_world sample_tree ∅) (sample_request {["max_depth" := PyInt 0]}) = None
  /\ max_depth (sample_world sample_tree ∅) (sample_request {["max_depth" := PyStr "0"]})
     = Some 0.
Proof. split; reflexivity. Qed.

End ListFilesFacts.

(** ** Properties of the mailbox report *)

Module EmailReportFacts.
Import Py EmailReport.

(** *** Account keys are recognised by the account pattern *)

Lemma list_ascii_of_append (a b : string) :
  String.list_ascii_of_string (a +:+ b)
  = String.list_ascii_of_string a ++ String.list_ascii_of_string b.
Proof. induction a as [|c a IH]; simpl; [reflexivity | rewrite IH; reflexivity]. Qed.

Lemma strip_prefix_app (p l : list ascii) : strip_prefix p (p ++ l) = Some l.
Proof.
  induction p as [|c p IH]; simpl; [reflexivity|].
  rewrite Ascii.eqb_refl. exact IH.
Qed.

Lemma span_digits_app (ds rest : list ascii) (c : ascii) :
  Forall (fun d => is_digit d = true) ds -> is_digit c = false ->
  span_digits (ds ++ c :: rest) = (ds, c :: rest).
Proof.
  intros Hds Hc. induction Hds as [|d ds Hd _ IH]; simpl.
  - rewrite Hc. reflexivity.
  - rewrite Hd, IH. reflexivity.
Qed.

Lemma uint_digits (d : Decimal.uint) :
  Forall (fun c => is_digit c = true)
    (String.list_ascii_of_string (NilEmpty.string_of_uint d)).
Proof. induction d; simpl; constructor; auto. Qed.

Lemma uint_value (d : Decimal.uint) (acc : N) :
  foldl digit_step acc (String.list_ascii_of_string (NilEmpty.string_of_uint d))
  = (acc * 10 ^ DecimalPos.Unsigned.usize d
     + DecimalPos.Unsigned.of_lu (Decimal.rev d))%N.
Proof.
  revert acc. induction d; intros acc; [simpl; lia | ..];
    cbn [NilEmpty.string_of_uint String.list_ascii_of_string foldl];
    rewrite IHd; unfold Decimal.rev at 2; cbn [Decimal.revapp];
    rewrite (DecimalPos.Unsigned.of_lu_revapp d);
    cbn [DecimalPos.Unsigned.usize];
    rewrite N.pow_succ_r'; unfold digit_step.
  all: match goal with
       | |- context [Ascii.N_of_ascii ?c] =>
           let v := eval vm_compute in (Ascii.N_of_ascii c - 48)%N in
           change (Ascii.N_of_ascii c - 48)%N with v
       end.
  all: cbn [DecimalPos.Unsigned.of_lu].
  all: lia.
Qed.

Lemma to_uint_digits_nonempty (n : N) :
  String.list_ascii_of_string (str_of_N n) <> [].
Proof.
  unfold str_of_N. destruct n as [|p]; [discriminate|].
  cbn [N.to_uint]. pose proof (DecimalPos.Unsigned.to_uint_nonnil p) as Hp.
  destruct (Pos.to_uint p); [congruence | discriminate ..].
Qed.

Lemma digits_value_str_of_N (n : N) :
  digits_value (String.list_ascii_of_string (str_of_N n)) = n.
Proof.
  unfold digits_value, str_of_N.
  rewrite uint_value, N.mul_0_l, N.add_0_l.
  rewrite <- DecimalPos.Unsigned.of_uint_alt.
  apply DecimalN.Unsigned.of_to.
Qed.

(** The key built for a number is matched by the pattern, which gives the
    number back. *)
Lemma account_pattern_key (n : N) : account_pattern (account_key n "EMAIL") = Some n.
Proof.
  unfold account_pattern, account_key.
  rewrite list_ascii_of_append, strip_prefix_app, !list_ascii_of_append.
  change (String.list_ascii_of_string "_" ++ String.list_ascii_of_string "EMAIL")
    with ("_"%char :: String.list_ascii_of_string "EMAIL").
  rewrite span_digits_app; [| apply uint_digits | reflexivity].
  pose proof (to_uint_digits_nonempty n) as Hne.
  destruct (String.list_ascii_of_string (str_of_N n)) as [|c ds] eqn:Hds;
    [congruence|].
  cbn [String.string_of_list_ascii String.list_ascii_of_string String.eqb
       Ascii.eqb Bool.eqb orb].
  rewrite <- Hds, digits_value_str_of_N. reflexivity.
Qed.

(** *** Account discovery *)

Lemma account_for_Some environ n :
  is_Some (account_for environ n) <-> has_address environ n.
Proof.
  unfold account_for, has_address.
  destruct (environ !! account_key n "EMAIL") as [addr|].
  - destruct (String.eqb_spec addr "") as [->|Hne]; cbn [negb].
    + split; [intros [? [=]] | intros (? & [= <-] & []); reflexivity].
    + split; [intros _; eauto | intros _; eexists; reflexivity].
  - split; [intros [? [=]] | intros (? & [=] & _)].
Qed.

Lemma account_numbers_address environ n :
  has_address environ n -> n ∈ account_numbers environ.
Proof.
  intros (addr & Hk & _). unfold account_numbers.
  apply elem_of_list_to_set, list_elem_of_omap.
  exists (account_key n "EMAIL"). split.
  - apply elem_of_elements, elem_of_dom. eauto.
  - apply account_pattern_key.
Qed.

Lemma sorted_numbers_strict environ :
  StronglySorted N.lt (merge_sort N.le (elements (account_numbers environ))).
Proof.
  assert (Hs : StronglySorted N.le (merge_sort N.le (elements (account_numbers environ)))).
  { apply StronglySorted_merge_sort.
    - intros a b c. apply N.le_trans.
    - intros a b. apply N.le_ge_cases. }
  assert (Hd : NoDup (merge_sort N.le (elements (account_numbers environ)))).
  { rewrite merge_sort_Permutation. apply NoDup_elements. }
  induction Hs as [|x l Hl IH Hx]; [constructor|].
  apply NoDup_cons in Hd as [Hnin Hd].
  constructor; [apply IH, Hd|].
  rewrite Forall_forall in Hx |- *. intros y Hy.
  assert (x <> y) by (intros ->; contradiction).
  specialize (Hx y Hy). lia.
Qed.

(** Dropping the numbers for which the loop body appends nothing keeps the
    order and pairs each remaining number with its descriptor. *)
Lemma omap_sorted {A : Type} (f : N -> option A) (l : list N) :
  StronglySorted N.lt l ->
  exists nums,
    StronglySorted N.lt nums
    /\ (forall n, n ∈ nums <-> n ∈ l /\ is_Some (f n))
    /\ Forall2 (fun n a => f n = Some a) nums (omap f l).
Proof.
  induction 1 as [|x l Hl (nums & Hs & Hin & Hf) Hx].
  - exists []. split; [constructor|]. split; [|constructor].
    intros n. split; [inversion 1 | intros [Hn _]; inversion Hn].
  - cbn [omap list_omap]. destruct (f x) as [a|] eqn:Hfx.
    + exists (x :: nums). split; [|split].
      * constructor; [assumption|].
        rewrite Forall_forall in Hx |- *. intros y Hy. apply Hx, Hin, Hy.
      * intros n. rewrite !elem_of_cons, Hin. split.
        -- intros [->|[? ?]]; [split; [left; reflexivity | rewrite Hfx; eauto] | auto].
        -- intros [[->|Hn] Hsome]; auto.
      * constructor; assumption.
    + exists nums. split; [assumption|]. split; [|assumption].
      intros n. rewrite elem_of_cons, Hin. split.
      * intros [? ?]; auto.
      * intros [[->|Hn] Hsome]; [rewrite Hfx in Hsome; destruct Hsome; discriminate | auto].
Qed.

(** C4.  The descriptors returned are, in strictly ascending order of
    their number, exactly one for each number N whose [ACCOUNT_N_EMAIL]
    is set to a non-empty value, each built from the values of that
    number; a number whose address is unset or empty has none. *)
Theorem C4_discover_accounts_by_number (environ : gmap string string) :
  exists nums : list N,
    StronglySorted N.lt nums
    /\ (forall n, n ∈ nums <-> has_address environ n)
    /\ Forall2 (fun n acc => account_for environ n = Some acc
                             /\ environ !! account_key n "EMAIL" = Some (email acc))
         nums (discover_accounts environ).
Proof.
  destruct (omap_sorted (account_for environ) _ (sorted_numbers_strict environ))
    as (nums & Hs & Hin & Hf).
  exists nums. split; [assumption|]. split.
  - intros n. rewrite Hin, account_for_Some. split; [tauto|].
    intros Hn. split; [|assumption].
    rewrite merge_sort_Permutation. apply elem_of_elements.
    apply account_numbers_address, Hn.
  - unfold discover_accounts. eapply Forall2_impl; [exact Hf|].
    intros n acc Hacc. split; [assumption|].
    unfold account_for in Hacc.
    destruct (environ !! account_key n "EMAIL") as [addr|]; [|discriminate].
    destruct (negb (String.eqb addr "")); [|discriminate].
    injection Hacc as <-. reflexivity.
Qed.

(** *** Fetching *)

(** Every exception of the model is caught by [except Exception]. *)
Lemma isinstance_Exception (e : exn) : isinstance e Exception = true.
Proof. destruct e; reflexivity. Qed.

Lemma timeout_not_imap_error e :
  isinstance e TimeoutError = true -> isinstance e IMAP4_error = false.
Proof. destruct e; cbv; congruence. Qed.

Lemma timeout_not_error_proto e :
  isinstance e TimeoutError = true -> isinstance e error_proto = false.
Proof. destruct e; cbv; congruence. Qed.

Lemma extends_refl w ok : extends w w ok.
Proof. exists []. rewrite app_nil_r. split; [reflexivity | constructor]. Qed.

Lemma extends_trans w1 w2 w3 ok :
  extends w1 w2 ok -> extends w2 w3 ok -> extends w1 w3 ok.
Proof.
  intros (a & Ha & Fa) (b & Hb & Fb). exists (a ++ b).
  rewrite Hb, Ha, app_assoc. split; [reflexivity | apply Forall_app; auto].
Qed.

Lemma extends_did w ef ok : ok ef = true -> extends w (did ef w) ok.
Proof. intros H. exists [ef]. split; [reflexivity | repeat constructor; assumption]. Qed.

Lemma extends_opened w p host ok :
  ok (Connect p host) = true -> extends w (opened p host w) ok.
Proof. intros H. exists [Connect p host]. split; [reflexivity | repeat constructor; assumption]. Qed.

(** [fetch_from_imap] always returns a list, and its only effects are
    connections and pauses. *)
Lemma fetch_from_imap_returns cfg net account_config retry_count w :
  exists data w',
    fetch_from_imap cfg net account_config retry_count w = (Return data, w')
    /\ extends w w' fetch_effect.
Proof.
  apply_funelim (fetch_from_imap cfg net account_config retry_count w).
  clear. intros cfg net acc rc w IH. cbv zeta in *.
  assert (Hopen : extends w (opened IMAP (server acc) w) fetch_effect)
    by (apply extends_opened; reflexivity).
  destruct (imap_try_body net (imap_server net (conns w)) (email acc)) as [[e|] data];
    [|eauto].
  destruct (isinstance e IMAP4_error).
  - destruct (decide (Z.of_nat rc < MAX_RETRIES cfg)) as [Hlt|Hge]; [|eauto].
    destruct (IH (Some e) data e Hlt) as (l & w' & Heq & Hext).
    exists l, w'. split; [exact Heq|].
    eapply extends_trans; [exact Hopen|].
    eapply extends_trans; [|exact Hext]. apply extends_did. reflexivity.
  - rewrite isinstance_Exception. destruct (isinstance e TimeoutError); eauto.
Qed.

Lemma fetch_from_pop3_returns cfg net account_config retry_count w :
  exists data w',
    fetch_from_pop3 cfg net account_config retry_count w = (Return data, w')
    /\ extends w w' fetch_effect.
Proof.
  apply_funelim (fetch_from_pop3 cfg net account_config retry_count w).
  clear. intros cfg net acc rc w IH. cbv zeta in *.
  assert (Hopen : extends w (opened POP3 (server acc) w) fetch_effect)
    by (apply extends_opened; reflexivity).
  destruct (pop3_try_body cfg net (pop3_server net (conns w)) (email acc)) as [[e|] data];
    [|eauto].
  destruct (isinstance e error_proto).
  - destruct (decide (Z.of_nat rc < MAX_RETRIES cfg)) as [Hlt|Hge]; [|eauto].
    destruct (IH (Some e) data e Hlt) as (l & w' & Heq & Hext).
    exists l, w'. split; [exact Heq|].
    eapply extends_trans; [exact Hopen|].
    eapply extends_trans; [|exact Hext]. apply extends_did. reflexivity.
  - rewrite isinstance_Exception. destruct (isinstance e TimeoutError); eauto.
Qed.

Lemma fetch_from_account_returns cfg net account_config retry_count w :
  exists data w',
    fetch_from_account cfg net account_config retry_count w = (Return data, w')
    /\ extends w w' fetch_effect.
Proof.
  unfold fetch_from_account.
  destruct (String.eqb _ "POP3");
    [apply fetch_from_pop3_returns | apply fetch_from_imap_returns].
Qed.

(** C3.  Whatever the account and whatever the server does on each
    connection, [fetch_from_account] returns a list: no exception leaves
    it. *)
Theorem C3_fetch_from_account_never_raises cfg net account_config retry_count w :
  exists (data : list MessageRecord) (w' : World),
    fetch_from_account cfg net account_config retry_count w = (Return data, w').
Proof.
  destruct (fetch_from_account_returns cfg net account_config retry_count w)
    as (data & w' & Heq & _).
  eauto.
Qed.

(** A refused login leaves the [try] block like any other protocol error. *)
Lemma imap_login_error net s user e :
  imap_connect s = None -> imap_login s = Some e ->
  imap_try_body net s user = (Some e, []).
Proof. intros Hc Hl. unfold imap_try_body. rewrite Hc, Hl. reflexivity. Qed.

Lemma pop3_login_error cfg net s user e :
  pop3_connect s = None -> pop3_user s = None -> pop3_pass s = Some e ->
  pop3_try_body cfg net s user = (Some e, []).
Proof. intros Hc Hu Hp. unfold pop3_try_body. rewrite Hc, Hu, Hp. reflexivity. Qed.

(** C2.  When the [try] block of an attempt numbered [k] is left by a
    protocol error ([IMAP4.error] on the IMAP path, [error_proto] on the
    POP3 path), a refused login included, and [k] is below [MAX_RETRIES],
    the fetch pauses [2^k] seconds and is run again in full as attempt
    [k + 1]; when it is left by a [TimeoutError], the data gathered so far
    is returned with no pause and no further connection, and so it is for
    any exception once [k] has reached [MAX_RETRIES]. *)
Theorem C2_protocol_errors_retried_timeouts_not cfg net account_config k w :
  let user := email account_config in
  let w1 p := opened p (server account_config) w in
  (forall e data,
     imap_try_body net (imap_server net (conns w)) user = (Some e, data) ->
     isinstance e IMAP4_error = true ->
     Z.of_nat k < MAX_RETRIES cfg ->
     fetch_from_imap cfg net account_config k w
     = fetch_from_imap cfg net account_config (S k) (sleep (2 ^ Z.of_nat k) (w1 IMAP)))
  /\ (forall e data,
     pop3_try_body cfg net (pop3_server net (conns w)) user = (Some e, data) ->
     isinstance e error_proto = true ->
     Z.of_nat k < MAX_RETRIES cfg ->
     fetch_from_pop3 cfg net account_config k w
     = fetch_from_pop3 cfg net account_config (S k) (sleep (2 ^ Z.of_nat k) (w1 POP3)))
  /\ (forall e data,
     imap_try_body net (imap_server net (conns w)) user = (Some e, data) ->
     isinstance e TimeoutError = true ->
     fetch_from_imap cfg net account_config k w = (Return data, w1 IMAP))
  /\ (forall e data,
     pop3_try_body cfg net (pop3_server net (conns w)) user = (Some e, data) ->
     isinstance e TimeoutError = true ->
     fetch_from_pop3 cfg net account_config k w = (Return data, w1 POP3))
  /\ (forall s e, imap_connect s = None -> imap_login s = Some e ->
        imap_try_body net s user = (Some e, []))
  /\ (forall s e, pop3_connect s = None -> pop3_user s = None -> pop3_pass s = Some e ->
        pop3_try_body cfg net s user = (Some e, []))
  /\ (forall e data,
     imap_try_body net (imap_server net (conns w)) user = (Some e, data) ->
     MAX_RETRIES cfg <= Z.of_nat k ->
     fetch_from_imap cfg net account_config k w = (Return data, w1 IMAP))
  /\ (forall e data,
     pop3_try_body cfg net (pop3_server net (conns w)) user = (Some e, data) ->
     MAX_RETRIES cfg <= Z.of_nat k ->
     fetch_from_pop3 cfg net account_config k w = (Return data, w1 POP3)).
Proof.
  cbv zeta. repeat apply conj;
    [..
    | intros e data Hbody Hk; rewrite fetch_from_imap_equation_1; cbv zeta;
      rewrite Hbody, isinstance_Exception;
      destruct (decide (Z.of_nat k < MAX_RETRIES cfg)); [lia|];
      destruct (isinstance e IMAP4_error), (isinstance e TimeoutError); reflexivity
    | intros e data Hbody Hk; rewrite fetch_from_pop3_equation_1; cbv zeta;
      rewrite Hbody, isinstance_Exception;
      destruct (decide (Z.of_nat k < MAX_RETRIES cfg)); [lia|];
      destruct (isinstance e error_proto), (isinstance e TimeoutError); reflexivity ].
  - intros e data Hbody He Hk. rewrite fetch_from_imap_equation_1. cbv zeta.
    rewrite Hbody, He. destruct (decide (Z.of_nat k < MAX_RETRIES cfg)); [reflexivity | lia].
  - intros e data Hbody He Hk. rewrite fetch_from_pop3_equation_1. cbv zeta.
    rewrite Hbody, He. destruct (decide (Z.of_nat k < MAX_RETRIES cfg)); [reflexivity | lia].
  - intros e data Hbody He. rewrite fetch_from_imap_equation_1. cbv zeta.
    rewrite Hbody, (timeout_not_imap_error e He), He. reflexivity.
  - intros e data Hbody He. rewrite fetch_from_pop3_equation_1. cbv zeta.
    rewrite Hbody, (timeout_not_error_proto e He), He. reflexivity.
  - intros s e. apply imap_login_error.
  - intros s e. apply pop3_login_error.
Qed.

Lemma C2_retry_witness :
  imap_try_body sample_net (imap_server sample_net (conns fresh)) (email sample_account)
    = (Some IMAP4_error, [])
  /\ fetch_from_imap sample_cfg sample_net sample_account 0 fresh
     = fetch_from_imap sample_cfg sample_net sample_account 1
         {| conns := 1; trace := [Connect IMAP "imap.example.com"; Sleep 1] |}.
Proof.
  split; [reflexivity|].
  apply (proj1 (C2_protocol_errors_retried_timeouts_not sample_cfg sample_net
                  sample_account 0 fresh) IMAP4_error []);
    [reflexivity | reflexivity | reflexivity].
Defined.

Lemma pop3_message_body_kept net s user date_cutoff i data :
  pop3_message_body net s user date_cutoff i data
  = (match pop3_retr s i with inl e => Some e | inr _ => None end,
     data ++ option_list (pop3_kept net s user date_cutoff i)).
Proof.
  unfold pop3_message_body, pop3_kept, pop3_record.
  destruct (pop3_retr s i) as [e|msg]; [cbn; rewrite app_nil_r; reflexivity|].
  destruct (parsedate_to_datetime net _) as [d|]; [destruct (dt_ltb _ _)|];
    cbn; rewrite ?app_nil_r; reflexivity.
Qed.

(** The POP3 loop ends without exception, with the kept records of the
    messages in order after what was gathered before. *)
Lemma pop3_messages_filter net s user date_cutoff n :
  forall i data,
    pop3_messages net s user date_cutoff i n data
    = (None, data ++ omap (pop3_kept net s user date_cutoff) (seq i n)).
Proof.
  induction n as [|n IH]; intros i data; [cbn; rewrite app_nil_r; reflexivity|].
  cbn [pop3_messages seq]. rewrite pop3_message_body_kept.
  destruct (pop3_retr s i) as [e|msg]; [rewrite isinstance_Exception|];
    rewrite IH, <- app_assoc; cbn [omap list_omap];
    destruct (pop3_kept net s user date_cutoff i); reflexivity.
Qed.







(** *** Sending *)

Lemma send_attempts_returns cfg net attempts :
  forall w, exists b w', send_attempts cfg net attempts w = (Return b, w').
Proof.
  induction attempts as [|attempt attempts IH]; intros w; [simpl; eauto|].
  cbn [send_attempts].
  destruct (smtp_try_body (smtp_server net (conns w))) as [[e|] went]; [|eauto].
  destruct (isinstance e SMTPAuthenticationError); [eauto|].
  rewrite isinstance_Exception.
  destruct (Z.of_nat attempt <? MAX_RETRIES cfg - 1); apply IH.
Qed.

Lemma fetch_effect_not_report ef : fetch_effect ef = true -> report_effect ef = false.
Proof. destruct ef as [[| |] ?| | | |]; simpl; congruence. Qed.

Lemma collect_returns cfg net accounts :
  forall master_list w, exists data w',
    collect cfg net accounts master_list w = (Return data, w')
    /\ extends w w' fetch_effect.
Proof.
  induction accounts as [|account accounts IH]; intros master_list w.
  - exists master_list, w. split; [reflexivity | apply extends_refl].
  - cbn [collect]. destruct (String.eqb (password account) ""); [apply IH|].
    destruct (fetch_from_account_returns cfg net account 0 w) as (data & w1 & Heq & Hext).
    rewrite Heq.
    destruct (IH (master_list ++ data) w1) as (data' & w' & Heq' & Hext').
    exists data', w'. split; [exact Heq' | eapply extends_trans; eassumption].
Qed.

(** C5.  With an empty dataframe [send_consolidated_report] returns
    [False] at once and leaves the world untouched: nothing is written
    and no connection is made.  When the main loop collects no record,
    the program exits (with status 0, or with status 1 before the loop when
    the settings are rejected) without calling it: the run ends in the
    world the loop left, to which only connections to mailboxes and
    pauses were added. *)
Theorem C5_empty_report_is_not_sent cfg net w :
  (forall dataframe,
     empty dataframe = true ->
     send_consolidated_report cfg net dataframe w = (Return false, w))
  /\ (forall w1,
     collect cfg net (ACCOUNTS_TO_CHECK cfg) [] w = (Return [], w1) ->
     (main cfg net w = (Return 0, w1) \/ main cfg net w = (Return 1, w))
     /\ exists added,
          trace w1 = trace w ++ added
          /\ Forall (fun ef => report_effect ef = false) added).
Proof.
  split.
  - intros dataframe Hempty. unfold send_consolidated_report. rewrite Hempty. reflexivity.
  - intros w1 Hcollect. split.
    + unfold main. rewrite Hcollect. cbn [empty negb].
      destruct (_ || _); [right; reflexivity|].
      destruct (match ACCOUNTS_TO_CHECK cfg with [] => true | _ => false end);
        [right; reflexivity|].
      destruct (negb _); [right; reflexivity | left; reflexivity].
    + destruct (collect_returns cfg net (ACCOUNTS_TO_CHECK cfg) [] w)
        as (data & w' & Heq & added & Htrace & Hadded).
      rewrite Hcollect in Heq. injection Heq as <- <-.
      exists added. split; [exact Htrace|].
      eapply Forall_impl; [exact Hadded|]. apply fetch_effect_not_report.
Qed.

Lemma C5_empty_report_witness :
  empty [] = true
  /\ send_consolidated_report sample_cfg sample_net [] fresh = (Return false, fresh)
  /\ main sample_cfg sample_net fresh
     = (Return 0,
        {| conns := 2;
           trace := [Connect IMAP "imap.example.com"; Sleep 1;
                     Connect IMAP "imap.example.com"] |}).
Proof.
  split; [reflexivity|]. split.
  - apply (proj1 (C5_empty_report_is_not_sent sample_cfg sample_net fresh) []).
    reflexivity.
  - destruct (proj1 (proj2 (C5_empty_report_is_not_sent sample_cfg sample_net fresh)
                       {| conns := 2;
                          trace := [Connect IMAP "imap.example.com"; Sleep 1;
                                    Connect IMAP "imap.example.com"] |}
                       eq_refl)) as [H|H]; [exact H | discriminate H].
Defined.

(** C6.  In the send loop, an attempt that ends in
    [SMTPAuthenticationError] ends the loop at once with the result
    [False]: no pause, no further connection.  An attempt that ends in any
    other error is followed by the next one, after a pause of [2^attempt]
    seconds unless it was the last of the [MAX_RETRIES] attempts; when no
    attempt is left the result is [False].  Once the report is written and
    attached, what [send_consolidated_report] returns is what this loop
    returns over the attempts [0 .. MAX_RETRIES - 1]. *)
Theorem C6_auth_error_ends_sending cfg net attempt attempts w :
  let w1 went := sent cfg went (opened SMTP (SMTP_SERVER cfg) w) in
  (forall e went,
     smtp_try_body (smtp_server net (conns w)) = (Some e, went) ->
     isinstance e SMTPAuthenticationError = true ->
     send_attempts cfg net (attempt :: attempts) w = (Return false, w1 went))
  /\ (forall e went,
     smtp_try_body (smtp_server net (conns w)) = (Some e, went) ->
     isinstance e SMTPAuthenticationError = false ->
     Z.of_nat attempt < MAX_RETRIES cfg - 1 ->
     send_attempts cfg net (attempt :: attempts) w
     = send_attempts cfg net attempts (sleep (2 ^ Z.of_nat attempt) (w1 went)))
  /\ (forall e went,
     smtp_try_body (smtp_server net (conns w)) = (Some e, went) ->
     isinstance e SMTPAuthenticationError = false ->
     MAX_RETRIES cfg - 1 <= Z.of_nat attempt ->
     send_attempts cfg net (attempt :: attempts) w
     = send_attempts cfg net attempts (w1 went))
  /\ send_attempts cfg net [] w = (Return false, w)
  /\ (forall dataframe wr,
     empty dataframe = false ->
     write_report cfg net w = (Return tt, wr) ->
     attachment_open net = None ->
     send_consolidated_report cfg net dataframe w
     = send_attempts cfg net (range (MAX_RETRIES cfg)) wr).
Proof.
  cbv zeta. repeat apply conj.
  - intros e went Hbody He. cbn [send_attempts]. rewrite Hbody, He. reflexivity.
  - intros e went Hbody He Hlt. cbn [send_attempts].
    rewrite Hbody, He, isinstance_Exception.
    destruct (Z.ltb_spec (Z.of_nat attempt) (MAX_RETRIES cfg - 1)); [reflexivity | lia].
  - intros e went Hbody He Hge. cbn [send_attempts].
    rewrite Hbody, He, isinstance_Exception.
    destruct (Z.ltb_spec (Z.of_nat attempt) (MAX_RETRIES cfg - 1)); [lia | reflexivity].
  - reflexivity.
  - intros dataframe wr Hne Hwrite Hopen.
    unfold send_consolidated_report, report_try_body.
    rewrite Hne, Hwrite, Hopen.
    destruct (send_attempts_returns cfg net (range (MAX_RETRIES cfg)) wr) as (b & w' & ->).
    reflexivity.
Qed.

Lemma C6_auth_error_witness :
  smtp_try_body (smtp_server sample_net (conns fresh)) = (Some SMTPAuthenticationError, false)
  /\ send_attempts sample_cfg sample_net (range (MAX_RETRIES sample_cfg)) fresh
     = (Return false, {| conns := 1; trace := [Connect SMTP "smtp.gmail.com"] |}).
Proof.
  split; [reflexivity|].
  apply (proj1 (C6_auth_error_ends_sending sample_cfg sample_net 0%nat [1; 2]%nat fresh)
           SMTPAuthenticationError false);
    reflexivity.
Defined.

(** *** Further properties of fetching *)

Lemma imap_parts_from net user parts :
  forall data, Forall (from_account user) data ->
    Forall (from_account user) (imap_parts net user parts data).2.
Proof.
  induction parts as [|part parts IH]; intros data Hdata; [exact Hdata|].
  destruct part as [|[e|msg]]; cbn [imap_parts]; [apply IH, Hdata | exact Hdata |].
  apply IH, Forall_app. split; [exact Hdata | repeat constructor].
Qed.

Lemma imap_messages_from net s user email_ids :
  forall idx data, Forall (from_account user) data ->
    Forall (from_account user) (imap_messages net s user idx email_ids data).2.
Proof.
  induction email_ids as [|e_id email_ids IH]; intros idx data Hdata; [exact Hdata|].
  cbn [imap_messages].
  assert (Hbody : Forall (from_account user) (imap_message_body net s user idx data).2).
  { unfold imap_message_body. destruct (imap_fetch s idx) as [e|[[] msg_data]];
      [exact Hdata | apply imap_parts_from, Hdata | exact Hdata]. }
  destruct (imap_message_body net s user idx data) as [[e|] data'];
    [rewrite isinstance_Exception|]; apply IH, Hbody.
Qed.

Lemma imap_try_body_from net s user :
  Forall (from_account user) (imap_try_body net s user).2.
Proof.
  unfold imap_try_body.
  destruct (imap_connect s); [constructor|].
  destruct (imap_login s); [constructor|].
  destruct (imap_select s) as [e|[]]; [constructor | | constructor].
  destruct (imap_search s) as [e|[[] email_ids]]; [constructor | | constructor].
  pose proof (imap_messages_from net s user email_ids 1%nat [] ltac:(constructor)) as H.
  destruct (imap_messages net s user 1 email_ids []) as [[e|] data]; [exact H|].
  destruct (imap_close s); [exact H|].
  destruct (imap_logout s); exact H.
Qed.

Lemma pop3_messages_from net s user date_cutoff remaining :
  forall i data, Forall (from_account user) data ->
    Forall (from_account user) (pop3_messages net s user date_cutoff i remaining data).2.
Proof.
  induction remaining as [|n IH]; intros i data Hdata; [exact Hdata|].
  cbn [pop3_messages].
  assert (Hbody : Forall (from_account user)
                    (pop3_message_body net s user date_cutoff i data).2).
  { unfold pop3_message_body. destruct (pop3_retr s i) as [e|msg]; [exact Hdata|].
    destruct (parsedate_to_datetime net _) as [d|]; [destruct (dt_ltb _ _)|];
      cbn [snd]; try exact Hdata;
      (apply Forall_app; split; [exact Hdata | repeat constructor]). }
  destruct (pop3_message_body net s user date_cutoff i data) as [[e|] data'];
    [rewrite isinstance_Exception|]; apply IH, Hbody.
Qed.

Lemma pop3_try_body_from cfg net s user :
  Forall (from_account user) (pop3_try_body cfg net s user).2.
Proof.
  unfold pop3_try_body.
  destruct (pop3_connect s); [constructor|].
  destruct (pop3_user s); [constructor|].
  destruct (pop3_pass s); [constructor|].
  destruct (pop3_list s) as [e|num_messages]; [constructor|].
  pose proof (pop3_messages_from net s user
                (minus_days (pop3_now s) (DAYS_BACK cfg)) num_messages 1%nat []
                ltac:(constructor)) as H.
  destruct (pop3_messages net s user _ 1 num_messages []) as [[e|] data]; [exact H|].
  destruct (pop3_quit s); exact H.
Qed.

Lemma fetch_from_imap_from cfg net account_config retry_count w :
  forall data w',
    fetch_from_imap cfg net account_config retry_count w = (Return data, w') ->
    Forall (from_account (email account_config)) data.
Proof.
  apply_funelim (fetch_from_imap cfg net account_config retry_count w).
  clear. intros cfg net acc rc w IH data w'. cbv zeta in *.
  pose proof (imap_try_body_from net (imap_server net (conns w)) (email acc)) as Hbody.
  destruct (imap_try_body net (imap_server net (conns w)) (email acc)) as [[e|] data0];
    cbn [snd] in Hbody; [|intros [= <- _]; exact Hbody].
  destruct (isinstance e IMAP4_error).
  - destruct (decide (Z.of_nat rc < MAX_RETRIES cfg)) as [Hlt|Hge];
      [apply (IH (Some e) data0 e Hlt) | intros [= <- _]; exact Hbody].
  - rewrite isinstance_Exception.
    destruct (isinstance e TimeoutError); intros [= <- _]; exact Hbody.
Qed.

Lemma fetch_from_pop3_from cfg net account_config retry_count w :
  forall data w',
    fetch_from_pop3 cfg net account_config retry_count w = (Return data, w') ->
    Forall (from_account (email account_config)) data.
Proof.
  apply_funelim (fetch_from_pop3 cfg net account_config retry_count w).
  clear. intros cfg net acc rc w IH data w'. cbv zeta in *.
  pose proof (pop3_try_body_from cfg net (pop3_server net (conns w)) (email acc)) as Hbody.
  destruct (pop3_try_body cfg net (pop3_server net (conns w)) (email acc)) as [[e|] data0];
    cbn [snd] in Hbody; [|intros [= <- _]; exact Hbody].
  destruct (isinstance e error_proto).
  - destruct (decide (Z.of_nat rc < MAX_RETRIES cfg)) as [Hlt|Hge];
      [apply (IH (Some e) data0 e Hlt) | intros [= <- _]; exact Hbody].
  - rewrite isinstance_Exception.
    destruct (isinstance e TimeoutError); intros [= <- _]; exact Hbody.
Qed.

(** X7.  Every record [fetch_from_account] returns carries, as its source
    account, the address of the account it was asked to fetch, on the IMAP
    path and on the POP3 path, whatever the servers answer and however
    many attempts it takes. *)
Theorem X7_records_carry_their_account cfg net account_config retry_count w data w' :
  fetch_from_account cfg net account_config retry_count w = (Return data, w') ->
  Forall (fun r => Source_Account r = email account_config) data.
Proof.
  unfold fetch_from_account.
  destruct (String.eqb _ "POP3");
    [apply fetch_from_pop3_from | apply fetch_from_imap_from].
Qed.

Lemma X7_records_carry_witness :
  fetch_from_account sample_cfg sample_net pop3_account 0 fresh
  = (Return [pop3_record sample_net "pop@example.com" undated;
             pop3_record sample_net "pop@example.com" undated],
     {| conns := 1; trace := [Connect POP3 "pop.example.com"] |})
  /\ Forall (fun r => Source_Account r = "pop@example.com")
       [pop3_record sample_net "pop@example.com" undated;
        pop3_record sample_net "pop@example.com" undated].
Proof.
  split; [reflexivity|].
  apply (X7_records_carry_their_account sample_cfg sample_net pop3_account 0 fresh _
           {| conns := 1; trace := [Connect POP3 "pop.example.com"] |}).
  reflexivity.
Defined.

Lemma slept_app (a b : list effect) : slept (a ++ b) = slept a + slept b.
Proof.
  induction a as [|ef a IH]; [reflexivity|].
  destruct ef; cbn [app slept]; rewrite IH; lia.
Qed.

Lemma budget_last cfg k w p host :
  within_budget cfg k w (opened p host w).
Proof.
  unfold within_budget, opened. cbn [conns trace]. rewrite slept_app. cbn [slept].
  split; lia.
Qed.

Lemma budget_retry cfg k w p host w' :
  Z.of_nat k < MAX_RETRIES cfg ->
  within_budget cfg (S k) (sleep (2 ^ Z.of_nat k) (opened p host w)) w' ->
  within_budget cfg k w w'.
Proof.
  unfold within_budget, sleep, did, opened. cbn [conns trace].
  rewrite !slept_app. cbn [slept]. intros Hk [Hc Hs].
  assert (Hpow : 2 ^ Z.of_nat (S k) = 2 * 2 ^ Z.of_nat k)
    by (rewrite Nat2Z.inj_succ; apply Z.pow_succ_r; lia).
  assert (Hmono : 2 ^ Z.of_nat (S k) <= 2 ^ MAX_RETRIES cfg)
    by (apply Z.pow_le_mono_r; lia).
  assert (Hpos : 0 < 2 ^ Z.of_nat k) by (apply Z.pow_pos_nonneg; lia).
  split; [lia|]. rewrite Hpow in *. lia.
Qed.

Lemma fetch_from_imap_budget cfg net account_config retry_count w :
  within_budget cfg retry_count w
    (fetch_from_imap cfg net account_config retry_count w).2.
Proof.
  apply_funelim (fetch_from_imap cfg net account_config retry_count w).
  clear. intros cfg net acc rc w IH. cbv zeta in *.
  destruct (imap_try_body net (imap_server net (conns w)) (email acc)) as [[e|] data];
    [|apply budget_last].
  destruct (isinstance e IMAP4_error).
  - destruct (decide (Z.of_nat rc < MAX_RETRIES cfg)) as [Hlt|Hge]; [|apply budget_last].
    eapply budget_retry; [exact Hlt | apply (IH (Some e) data e Hlt)].
  - rewrite isinstance_Exception. destruct (isinstance e TimeoutError); apply budget_last.
Qed.

Lemma fetch_from_pop3_budget cfg net account_config retry_count w :
  within_budget cfg retry_count w
    (fetch_from_pop3 cfg net account_config retry_count w).2.
Proof.
  apply_funelim (fetch_from_pop3 cfg net account_config retry_count w).
  clear. intros cfg net acc rc w IH. cbv zeta in *.
  destruct (pop3_try_body cfg net (pop3_server net (conns w)) (email acc)) as [[e|] data];
    [|apply budget_last].
  destruct (isinstance e error_proto).
  - destruct (decide (Z.of_nat rc < MAX_RETRIES cfg)) as [Hlt|Hge]; [|apply budget_last].
    eapply budget_retry; [exact Hlt | apply (IH (Some e) data e Hlt)].
  - rewrite isinstance_Exception. destruct (isinstance e TimeoutError); apply budget_last.
Qed.

(** X8.  A fetch started at retry count [k] opens at least one connection
    and at most [MAX_RETRIES - k + 1] (one when [k] has reached the
    limit), and the time it spends sleeping is at most
    [2^MAX_RETRIES - 2^k] seconds, none when [k] has reached the limit. *)
Theorem X8_fetch_attempts_and_sleep_bounded cfg net account_config k w :
  let w' := (fetch_from_account cfg net account_config k w).2 in
  (conns w < conns w' <= conns w + S (Z.to_nat (MAX_RETRIES cfg - Z.of_nat k)))%nat
  /\ slept (trace w) <= slept (trace w')
     <= slept (trace w) + Z.max 0 (2 ^ MAX_RETRIES cfg - 2 ^ Z.of_nat k).
Proof.
  cbv zeta. unfold fetch_from_account.
  destruct (String.eqb _ "POP3");
    [apply fetch_from_pop3_budget | apply fetch_from_imap_budget].
Qed.

(** *** Further properties of sending and of the main program *)

Lemma send_consolidated_report_returns cfg net dataframe w :
  exists b w', send_consolidated_report cfg net dataframe w = (Return b, w').
Proof.
  unfold send_consolidated_report, report_try_body, write_report.
  destruct (empty dataframe); [eauto|].
  destruct (excel_write net) as [e|].
  - rewrite isinstance_Exception. destruct (csv_write net) as [e'|].
    + rewrite isinstance_Exception. eauto.
    + destruct (attachment_open net) as [e'|]; [rewrite isinstance_Exception; eauto|].
      destruct (send_attempts_returns cfg net (range (MAX_RETRIES cfg))
                  (did (WriteCsv (REPORT_FILENAME cfg)) w)) as (b & w' & ->).
      eauto.
  - destruct (attachment_open net) as [e'|]; [rewrite isinstance_Exception; eauto|].
    destruct (send_attempts_returns cfg net (range (MAX_RETRIES cfg))
                (did (WriteExcel (REPORT_FILENAME cfg)) w)) as (b & w' & ->).
    eauto.
Qed.

(** X9.  The main program always ends with an exit status, which is 0 or
    1: no exception of the servers, of the file system or of the libraries
    leaves it. *)
Theorem X9_main_exits_with_0_or_1 cfg net w :
  exists code w', main cfg net w = (Return code, w') /\ (code = 0 \/ code = 1).
Proof.
  unfold main.
  destruct (_ || _); [eauto|].
  destruct (match ACCOUNTS_TO_CHECK cfg with [] => true | _ => false end); [eauto|].
  destruct (negb _); [eauto|].
  destruct (collect_returns cfg net (ACCOUNTS_TO_CHECK cfg) [] w)
    as (master_list & w1 & -> & _).
  destruct (negb (empty master_list)); [|eauto].
  destruct (send_consolidated_report_returns cfg net master_list w1) as (b & w2 & ->).
  destruct b; eauto.
Qed.

Lemma smtp_try_body_done s went : smtp_try_body s = (None, went) -> went = true.
Proof.
  unfold smtp_try_body.
  destruct (smtp_connect s); [discriminate|].
  destruct (smtp_starttls s); [discriminate|].
  destruct (smtp_login s); [discriminate|].
  destruct (smtp_sendmail s); [discriminate|].
  destruct (smtp_quit s); [discriminate|]. intros [= <-]. reflexivity.
Qed.

Lemma trace_sent cfg went w :
  exists added, trace (sent cfg went w) = trace w ++ added.
Proof.
  destruct went; [exists [SendMail (SENDER_EMAIL cfg) (RECIPIENT_EMAIL cfg)]
                 | exists []; rewrite app_nil_r]; reflexivity.
Qed.

Lemma send_attempts_true cfg net attempts :
  forall w w',
    send_attempts cfg net attempts w = (Return true, w') ->
    exists added,
      trace w' = trace w ++ added
      /\ SendMail (SENDER_EMAIL cfg) (RECIPIENT_EMAIL cfg) ∈ added.
Proof.
  induction attempts as [|attempt attempts IH]; intros w w'; [discriminate|].
  cbn [send_attempts].
  destruct (smtp_try_body (smtp_server net (conns w))) as [[e|] went] eqn:Hbody.
  - destruct (trace_sent cfg went (opened SMTP (SMTP_SERVER cfg) w)) as (a1 & Ha1).
    cbn [opened trace] in Ha1.
    destruct (isinstance e SMTPAuthenticationError); [discriminate|].
    rewrite isinstance_Exception.
    destruct (Z.of_nat attempt <? MAX_RETRIES cfg - 1); intros Hrest;
      apply IH in Hrest as (added & Htr & Hin);
      cbn [sleep did trace] in Htr; rewrite Htr, Ha1, <- !app_assoc;
      eexists; (split; [reflexivity|]); rewrite !elem_of_app; auto.
  - apply smtp_try_body_done in Hbody as ->. intros [= <-].
    exists [Connect SMTP (SMTP_SERVER cfg);
            SendMail (SENDER_EMAIL cfg) (RECIPIENT_EMAIL cfg)].
    split; [cbn; rewrite <- app_assoc; reflexivity|].
    apply elem_of_cons. right. apply list_elem_of_singleton. reflexivity.
Qed.

Lemma send_true_trace cfg net dataframe w w' :
  send_consolidated_report cfg net dataframe w = (Return true, w') ->
  exists written added,
    (written = WriteExcel (REPORT_FILENAME cfg) \/ written = WriteCsv (REPORT_FILENAME cfg))
    /\ trace w' = trace w ++ written :: added
    /\ SendMail (SENDER_EMAIL cfg) (RECIPIENT_EMAIL cfg) ∈ added.
Proof.
  unfold send_consolidated_report, report_try_body, write_report.
  destruct (empty dataframe); [discriminate|].
  destruct (excel_write net) as [e|].
  - rewrite isinstance_Exception. destruct (csv_write net) as [e'|];
      [rewrite isinstance_Exception; discriminate|].
    destruct (attachment_open net) as [e'|];
      [rewrite isinstance_Exception; discriminate|].
    destruct (send_attempts cfg net _ _) as [[b|e'] w2] eqn:Hsend;
      [|destruct (isinstance e' Exception); discriminate].
    intros [= -> <-]. apply send_attempts_true in Hsend as (added & Htr & Hin).
    exists (WriteCsv (REPORT_FILENAME cfg)), added. split; [auto|].
    split; [|exact Hin]. rewrite Htr. cbn [did trace]. rewrite <- app_assoc. reflexivity.
  - destruct (attachment_open net) as [e'|];
      [rewrite isinstance_Exception; discriminate|].
    destruct (send_attempts cfg net _ _) as [[b|e'] w2] eqn:Hsend;
      [|destruct (isinstance e' Exception); discriminate].
    intros [= -> <-]. apply send_attempts_true in Hsend as (added & Htr & Hin).
    exists (WriteExcel (REPORT_FILENAME cfg)), added. split; [auto|].
    split; [|exact Hin]. rewrite Htr. cbn [did trace]. rewrite <- app_assoc. reflexivity.
Qed.

(** X10.  [send_consolidated_report] returns [True] only when the report
    was written, as a spreadsheet or as CSV, and a [sendmail] of the
    message from the sender to the recipient went through after that. *)
Theorem X10_true_only_after_sendmail cfg net dataframe w w' :
  send_consolidated_report cfg net dataframe w = (Return true, w') ->
  exists written added,
    (written = WriteExcel (REPORT_FILENAME cfg) \/ written = WriteCsv (REPORT_FILENAME cfg))
    /\ trace w' = trace w ++ written :: added
    /\ SendMail (SENDER_EMAIL cfg) (RECIPIENT_EMAIL cfg) ∈ added.
Proof. apply send_true_trace. Qed.

Lemma X10_true_only_after_sendmail_witness :
  exists written added,
    trace (send_consolidated_report sample_cfg friendly_net
             [pop3_record friendly_net "box@example.com" undated] fresh).2
    = trace fresh ++ written :: added
    /\ SendMail "bot@example.com" "manager@yourcompany.com" ∈ added.
Proof.
  destruct (X10_true_only_after_sendmail sample_cfg friendly_net
              [pop3_record friendly_net "box@example.com" undated] fresh
              {| conns := 1;
                 trace := [WriteExcel "consolidated_email_report.xlsx";
                           Connect SMTP "smtp.gmail.com";
                           SendMail "bot@example.com" "manager@yourcompany.com"] |}
              eq_refl) as (written & added & _ & Htr & Hin).
  exists written, added. split; [exact Htr | exact Hin].
Defined.

Lemma conns_sent cfg went w : conns (sent cfg went w) = conns w.
Proof. destruct went; reflexivity. Qed.

Lemma send_attempts_conns cfg net attempts :
  forall w, (conns (send_attempts cfg net attempts w).2 <= conns w + length attempts)%nat.
Proof.
  induction attempts as [|attempt attempts IH]; intros w; [cbn; lia|].
  cbn [send_attempts length].
  destruct (smtp_try_body (smtp_server net (conns w))) as [[e|] went].
  - destruct (isinstance e SMTPAuthenticationError);
      [cbn [snd]; rewrite conns_sent; cbn; lia|].
    rewrite isinstance_Exception.
    destruct (Z.of_nat attempt <? MAX_RETRIES cfg - 1).
    + etransitivity; [apply IH|]. cbn [sleep did conns]. rewrite conns_sent. cbn. lia.
    + etransitivity; [apply IH|]. rewrite conns_sent. cbn. lia.
  - cbn [snd]. rewrite conns_sent. cbn. lia.
Qed.

(** X11.  [send_consolidated_report] opens at most [MAX_RETRIES]
    connections to the mail-submission server; with [MAX_RETRIES] at 0 or
    below it opens none and returns [False], even though the report has
    been written. *)
Theorem X11_send_attempts_bounded cfg net dataframe w :
  (conns (send_consolidated_report cfg net dataframe w).2
   <= conns w + Z.to_nat (MAX_RETRIES cfg))%nat
  /\ (MAX_RETRIES cfg <= 0 ->
      (send_consolidated_report cfg net dataframe w).1 = Return false
      /\ conns (send_consolidated_report cfg net dataframe w).2 = conns w).
Proof.
  assert (Hloop : forall w0,
            (conns (send_attempts cfg net (range (MAX_RETRIES cfg)) w0).2
             <= conns w0 + Z.to_nat (MAX_RETRIES cfg))%nat).
  { intros w0. etransitivity; [apply send_attempts_conns|].
    unfold range. rewrite length_seq. lia. }
  assert (Hnone : MAX_RETRIES cfg <= 0 ->
            forall w0, send_attempts cfg net (range (MAX_RETRIES cfg)) w0 = (Return false, w0)).
  { intros Hle w0. unfold range. replace (Z.to_nat (MAX_RETRIES cfg)) with 0%nat by lia.
    reflexivity. }
  unfold send_consolidated_report, report_try_body, write_report.
  destruct (empty dataframe); [cbn; split; [lia | auto]|].
  destruct (excel_write net) as [e|].
  - rewrite isinstance_Exception. destruct (csv_write net) as [e'|];
      [rewrite isinstance_Exception; cbn; split; [lia | auto]|].
    destruct (attachment_open net) as [e'|];
      [rewrite isinstance_Exception; cbn; split; [lia | auto]|].
    split.
    + specialize (Hloop (did (WriteCsv (REPORT_FILENAME cfg)) w)).
      destruct (send_attempts cfg net _ _) as [[b|e'] w2];
        [|rewrite isinstance_Exception]; exact Hloop.
    + intros Hle. rewrite (Hnone Hle). auto.
  - destruct (attachment_open net) as [e'|];
      [rewrite isinstance_Exception; cbn; split; [lia | auto]|].
    split.
    + specialize (Hloop (did (WriteExcel (REPORT_FILENAME cfg)) w)).
      destruct (send_attempts cfg net _ _) as [[b|e'] w2];
        [|rewrite isinstance_Exception]; exact Hloop.
    + intros Hle. rewrite (Hnone Hle). auto.
Qed.

Lemma X11_send_attempts_witness :
  send_consolidated_report no_retry_cfg friendly_net
    [pop3_record friendly_net "box@example.com" undated] fresh
  = (Return false,
     {| conns := 0; trace := [WriteExcel "consolidated_email_report.xlsx"] |})
  /\ (send_consolidated_report no_retry_cfg friendly_net
        [pop3_record friendly_net "box@example.com" undated] fresh).1 = Return false.
Proof.
  split; [reflexivity|].
  apply (proj2 (X11_send_attempts_bounded no_retry_cfg friendly_net
                  [pop3_record friendly_net "box@example.com" undated] fresh)).
  cbn. lia.
Defined.

(** X12.  When the spreadsheet cannot be written the report is written as
    CSV under the same name and sending goes on from there; when the CSV
    cannot be written either, [send_consolidated_report] returns [False]
    and nothing is written or sent.  The same holds, after the write,
    when the written file cannot be opened for attaching. *)
Theorem X12_csv_fallback cfg net dataframe w e :
  empty dataframe = false ->
  excel_write net = Some e ->
  (forall e', csv_write net = Some e' ->
     send_consolidated_report cfg net dataframe w = (Return false, w))
  /\ (csv_write net = None -> attachment_open net = None ->
      send_consolidated_report cfg net dataframe w
      = send_attempts cfg net (range (MAX_RETRIES cfg))
          (did (WriteCsv (REPORT_FILENAME cfg)) w))
  /\ (forall e', csv_write net = None -> attachment_open net = Some e' ->
      send_consolidated_report cfg net dataframe w
      = (Return false, did (WriteCsv (REPORT_FILENAME cfg)) w)).
Proof.
  intros Hne Hexcel.
  unfold send_consolidated_report, report_try_body, write_report.
  rewrite Hne, Hexcel, isinstance_Exception. repeat apply conj.
  - intros e' ->. rewrite isinstance_Exception. reflexivity.
  - intros -> ->.
    destruct (send_attempts_returns cfg net (range (MAX_RETRIES cfg))
                (did (WriteCsv (REPORT_FILENAME cfg)) w)) as (b & w' & ->).
    reflexivity.
  - intros e' -> ->. rewrite isinstance_Exception. reflexivity.
Qed.

Lemma X12_csv_fallback_witness :
  send_consolidated_report sample_cfg readonly_net
    [pop3_record readonly_net "box@example.com" undated] fresh
  = (Return false, fresh).
Proof.
  apply (proj1 (X12_csv_fallback sample_cfg readonly_net
                  [pop3_record readonly_net "box@example.com" undated] fresh OSError_
                  eq_refl eq_refl) OSError_).
  reflexivity.
Defined.

Lemma pop3_messages_count net s user date_cutoff remaining :
  forall i data,
    exists new,
      (pop3_messages net s user date_cutoff i remaining data).2 = data ++ new
      /\ (length new <= remaining)%nat.
Proof.
  induction remaining as [|n IH]; intros i data.
  - exists []. rewrite app_nil_r. split; [reflexivity | cbn; lia].
  - cbn [pop3_messages].
    assert (Hbody : exists new,
              (pop3_message_body net s user date_cutoff i data).2 = data ++ new
              /\ (length new <= 1)%nat).
    { unfold pop3_message_body. destruct (pop3_retr s i) as [e|msg];
        [exists []; rewrite app_nil_r; split; [reflexivity | cbn; lia]|].
      destruct (parsedate_to_datetime net _) as [d|]; [destruct (dt_ltb _ _)|];
        cbn [snd];
        solve [ exists []; rewrite app_nil_r; split; [reflexivity | cbn; lia]
              | eexists; split; [reflexivity | cbn; lia] ]. }
    destruct Hbody as (new1 & Hnew1 & Hlen1).
    destruct (pop3_message_body net s user date_cutoff i data) as [[e|] data'];
      cbn [snd] in Hnew1; subst data'; [rewrite isinstance_Exception|];
      destruct (IH (S i) (data ++ new1)) as (new2 & -> & Hlen2);
      exists (new1 ++ new2); rewrite <- app_assoc, length_app;
      (split; [reflexivity | lia]).
Qed.

(** X13.  One POP3 connection gathers at most one record per message the
    server announced, in message order after what was gathered before. *)
Theorem X13_pop3_at_most_one_record_per_message cfg net s user num_messages :
  pop3_list s = inr num_messages ->
  (length (pop3_try_body cfg net s user).2 <= num_messages)%nat.
Proof.
  intros Hlist. unfold pop3_try_body.
  destruct (pop3_connect s); [cbn; lia|].
  destruct (pop3_user s); [cbn; lia|].
  destruct (pop3_pass s); [cbn; lia|].
  rewrite Hlist.
  destruct (pop3_messages_count net s user (minus_days (pop3_now s) (DAYS_BACK cfg))
              num_messages 1%nat []) as (new & Hnew & Hlen).
  destruct (pop3_messages net s user _ 1 num_messages []) as [[e|] data];
    cbn [snd] in Hnew; subst data; [exact Hlen|].
  destruct (pop3_quit s); exact Hlen.
Qed.

Lemma X13_pop3_count_witness :
  (length (pop3_try_body sample_cfg sample_net quiet_pop3 "pop@example.com").2 <= 2)%nat.
Proof.
  apply (X13_pop3_at_most_one_record_per_message sample_cfg sample_net quiet_pop3
           "pop@example.com" 2).
  reflexivity.
Defined.

(** *** Further properties of account discovery *)

Lemma upper_ascii_idempotent (c : ascii) : upper_ascii (upper_ascii c) = upper_ascii c.
Proof. destruct c as [[] [] [] [] [] [] [] []]; vm_compute; reflexivity. Qed.

Lemma upper_idempotent (s : string) : upper (upper s) = upper s.
Proof.
  induction s as [|c s IH]; [reflexivity|].
  cbn [upper]. rewrite upper_ascii_idempotent, IH. reflexivity.
Qed.

Lemma discovered_account environ acc :
  acc ∈ discover_accounts environ ->
  exists n, account_for environ n = Some acc.
Proof.
  unfold discover_accounts. rewrite list_elem_of_omap.
  intros (n & _ & Hn). eauto.
Qed.

(** X14.  Every descriptor [discover_accounts] returns has a non-empty
    address and a protocol in upper case; its server is the one set for
    its number or, when none is set, [pop.gmail.com] for the protocol
    [POP3] and [imap.gmail.com] for any other; and its password is the
    empty string when none is set. *)
Theorem X14_discovered_accounts_are_complete (environ : gmap string string) :
  Forall (fun acc =>
            email acc <> ""
            /\ exists n p,
                 environ !! account_key n "EMAIL" = Some (email acc)
                 /\ protocol acc = Some p
                 /\ upper p = p
                 /\ password acc = default "" (environ !! account_key n "PASS")
                 /\ server acc
                    = default (if String.eqb p "POP3" then "pop.gmail.com"
                               else "imap.gmail.com")
                        (environ !! account_key n "SERVER"))
    (discover_accounts environ).
Proof.
  apply Forall_forall. intros acc Hacc.
  destruct (discovered_account environ acc Hacc) as (n & Hn).
  unfold account_for in Hn.
  destruct (environ !! account_key n "EMAIL") as [addr|] eqn:Haddr; [|discriminate].
  destruct (String.eqb_spec addr "") as [->|Hne]; [discriminate|].
  cbn [negb] in Hn. injection Hn as <-. cbn [email protocol password server].
  split; [exact Hne|].
  exists n, (upper (default "IMAP" (environ !! account_key n "PROTOCOL"))).
  repeat split; [exact Haddr | apply upper_idempotent].
Qed.

Lemma account_key_chars (n : N) (field : string) :
  String.list_ascii_of_string (account_key n field)
  = String.list_ascii_of_string "ACCOUNT_"
    ++ String.list_ascii_of_string (str_of_N n)
    ++ "_"%char :: String.list_ascii_of_string field.
Proof. unfold account_key. rewrite !list_ascii_of_append. reflexivity. Qed.

(** X15.  Of the keys the script builds for a number, the account pattern
    recognises the [EMAIL] key, and gives the number back, and no other:
    the [PASS], [SERVER] and [PROTOCOL] keys of an account never add an
    account number. *)
Theorem X15_pattern_recognises_email_keys_only (n : N) (field : string) :
  account_pattern (account_key n field)
  = if String.eqb field "EMAIL"
       || String.eqb field (String.string_of_list_ascii
            (String.list_ascii_of_string "EMAIL" ++ [newline]))
    then Some n else None.
Proof.
  unfold account_pattern. rewrite account_key_chars, strip_prefix_app.
  rewrite span_digits_app; [| apply uint_digits | reflexivity].
  pose proof (to_uint_digits_nonempty n) as Hne.
  destruct (String.list_ascii_of_string (str_of_N n)) as [|c ds] eqn:Hds;
    [congruence|].
  rewrite <- Hds, digits_value_str_of_N.
  change (String.string_of_list_ascii ("_"%char :: String.list_ascii_of_string field))
    with (String "_" (String.string_of_list_ascii (String.list_ascii_of_string field))).
  rewrite String.string_of_list_ascii_of_string.
  reflexivity.
Qed.

(** *** What the loops keep, and what a run that ends well has done *)

(** X17.  When the main program ends with status 0, either the loop over
    the accounts collected nothing, and then nothing was written and no
    mail server was contacted beyond the mailboxes, or the report was
    written and a [sendmail] went through. *)
Theorem X17_status_0_means_nothing_or_sent cfg net w w' :
  main cfg net w = (Return 0, w') ->
  (exists added,
     trace w' = trace w ++ added /\ Forall (fun ef => report_effect ef = false) added)
  \/ (exists before written added,
        (written = WriteExcel (REPORT_FILENAME cfg)
         \/ written = WriteCsv (REPORT_FILENAME cfg))
        /\ trace w' = before ++ written :: added
        /\ SendMail (SENDER_EMAIL cfg) (RECIPIENT_EMAIL cfg) ∈ added).
Proof.
  unfold main.
  destruct (_ || _); [discriminate|].
  destruct (match ACCOUNTS_TO_CHECK cfg with [] => true | _ => false end); [discriminate|].
  destruct (negb _); [discriminate|].
  destruct (collect_returns cfg net (ACCOUNTS_TO_CHECK cfg) [] w)
    as (master_list & w1 & -> & added & Htr & Hadded).
  destruct (negb (empty master_list)).
  - destruct (send_consolidated_report cfg net master_list w1) as [[[]|e] w2] eqn:Hsend;
      [|discriminate..].
    intros [= <-]. right.
    apply send_true_trace in Hsend as (written & added' & Hw & Htr' & Hin).
    exists (trace w1), written, added'. auto.
  - intros [= <-]. left. exists added. split; [exact Htr|].
    eapply Forall_impl; [exact Hadded | apply fetch_effect_not_report].
Qed.

Lemma X17_status_0_witness :
  main sample_cfg sample_net fresh
  = (Return 0,
     {| conns := 2;
        trace := [Connect IMAP "imap.example.com"; Sleep 1;
                  Connect IMAP "imap.example.com"] |})
  /\ ((exists added,
         [Connect IMAP "imap.example.com"; Sleep 1; Connect IMAP "imap.example.com"]
         = trace fresh ++ added
         /\ Forall (fun ef => report_effect ef = false) added)
      \/ (exists before written added,
            (written = WriteExcel (REPORT_FILENAME sample_cfg)
             \/ written = WriteCsv (REPORT_FILENAME sample_cfg))
            /\ [Connect IMAP "imap.example.com"; Sleep 1; Connect IMAP "imap.example.com"]
               = before ++ written :: added
            /\ SendMail (SENDER_EMAIL sample_cfg) (RECIPIENT_EMAIL sample_cfg) ∈ added)).
Proof.
  split; [reflexivity|].
  apply (X17_status_0_means_nothing_or_sent sample_cfg sample_net fresh
           {| conns := 2;
              trace := [Connect IMAP "imap.example.com"; Sleep 1;
                        Connect IMAP "imap.example.com"] |}).
  reflexivity.
Defined.

(** X18.  The POP3 loop never stops early and keeps the order of the
    mailbox: over messages [i .. i + n - 1] it ends without exception and
    with, appended to what was gathered before, the records of exactly
    the messages that could be retrieved and whose [Date], read as a
    wall-clock time with its zone dropped, does not parse to one strictly
    before the naive local cutoff. *)
Theorem X18_pop3_loop_is_a_filter net s user date_cutoff n :
  forall i data,
    pop3_messages net s user date_cutoff i n data
    = (None, data ++ omap (pop3_kept net s user date_cutoff) (seq i n)).
Proof. apply pop3_messages_filter. Qed.

Lemma imap_parts_records net user parts :
  forall data,
    (imap_parts net user parts data).2 = data ++ part_records net user parts.
Proof.
  induction parts as [|part parts IH]; intros data; [cbn; rewrite app_nil_r; reflexivity|].
  destruct part as [|[e|msg]]; cbn [imap_parts part_records].
  - apply IH.
  - cbn. rewrite app_nil_r. reflexivity.
  - rewrite IH, <- app_assoc. reflexivity.
Qed.

(** X19.  The IMAP loop never stops early either: over the message ids
    found it ends without exception and with, in order, the records of
    every message whose fetch answered [OK], one record per tuple part up
    to the first part that cannot be parsed; a message whose fetch raises
    or does not answer [OK] adds nothing and the loop goes on. *)
Theorem X19_imap_loop_keeps_what_it_can net s user email_ids :
  forall idx data,
    imap_messages net s user idx email_ids data
    = (None,
       data ++ flat_map (imap_kept net s user) (seq idx (length email_ids))).
Proof.
  induction email_ids as [|e_id email_ids IH]; intros idx data;
    [cbn; rewrite app_nil_r; reflexivity|].
  cbn [imap_messages length seq flat_map].
  assert (Hbody : (imap_message_body net s user idx data).2
                  = data ++ imap_kept net s user idx).
  { unfold imap_message_body, imap_kept.
    destruct (imap_fetch s idx) as [e|[[] msg_data]];
      [cbn; rewrite app_nil_r; reflexivity
      | apply imap_parts_records
      | cbn; rewrite app_nil_r; reflexivity]. }
  destruct (imap_message_body net s user idx data) as [[e|] data'];
    cbn [snd] in Hbody; subst data'; [rewrite isinstance_Exception|];
    rewrite IH, <- app_assoc; reflexivity.
Qed.

Lemma imap_retry_until_success cfg net account_config j :
  forall k w data,
    (forall i, (i < j)%nat ->
       imap_attempt_fails net (email account_config) (conns w + i)) ->
    imap_try_body net (imap_server net (conns w + j)) (email account_config)
      = (None, data) ->
    Z.of_nat (k + j) <= MAX_RETRIES cfg ->
    exists w',
      fetch_from_imap cfg net account_config k w = (Return data, w')
      /\ conns w' = (conns w + j + 1)%nat
      /\ slept (trace w') = slept (trace w) + 2 ^ Z.of_nat (k + j) - 2 ^ Z.of_nat k.
Proof.
  induction j as [|j IH]; intros k w data Hfail Hok Hmax.
  - rewrite fetch_from_imap_equation_1. cbv zeta.
    rewrite Nat.add_0_r in Hok. rewrite Hok.
    eexists. split; [reflexivity|]. cbn [opened conns trace].
    rewrite slept_app, !Nat.add_0_r. cbn [slept]. split; lia.
  - destruct (Hfail 0%nat ltac:(lia)) as (e & data0 & Hbody & He).
    rewrite Nat.add_0_r in Hbody.
    rewrite fetch_from_imap_equation_1. cbv zeta. rewrite Hbody, He.
    destruct (decide (Z.of_nat k < MAX_RETRIES cfg)) as [_|Hge]; [|lia].
    destruct (IH (S k) (sleep (2 ^ Z.of_nat k) (opened IMAP (server account_config) w)) data)
      as (w' & Heq & Hconns & Hslept).
    + intros i Hi. cbn [sleep did opened conns].
      replace (S (conns w) + i)%nat with (conns w + S i)%nat by lia.
      apply Hfail. lia.
    + cbn [sleep did opened conns].
      replace (S (conns w) + j)%nat with (conns w + S j)%nat by lia. exact Hok.
    + lia.
    + exists w'. split; [exact Heq|]. cbn [sleep did opened conns trace] in Hconns, Hslept.
      rewrite !slept_app in Hslept. cbn [slept] in Hslept.
      replace (S k + j)%nat with (k + S j)%nat in Hslept by lia.
      assert (Hpow : 2 ^ Z.of_nat (S k) = 2 * 2 ^ Z.of_nat k)
        by (rewrite Nat2Z.inj_succ; apply Z.pow_succ_r; lia).
      split; lia.
Qed.

Lemma pop3_retry_until_success cfg net account_config j :
  forall k w data,
    (forall i, (i < j)%nat ->
       pop3_attempt_fails cfg net (email account_config) (conns w + i)) ->
    pop3_try_body cfg net (pop3_server net (conns w + j)) (email account_config)
      = (None, data) ->
    Z.of_nat (k + j) <= MAX_RETRIES cfg ->
    exists w',
      fetch_from_pop3 cfg net account_config k w = (Return data, w')
      /\ conns w' = (conns w + j + 1)%nat
      /\ slept (trace w') = slept (trace w) + 2 ^ Z.of_nat (k + j) - 2 ^ Z.of_nat k.
Proof.
  induction j as [|j IH]; intros k w data Hfail Hok Hmax.
  - rewrite fetch_from_pop3_equation_1. cbv zeta.
    rewrite Nat.add_0_r in Hok. rewrite Hok.
    eexists. split; [reflexivity|]. cbn [opened conns trace].
    rewrite slept_app, !Nat.add_0_r. cbn [slept]. split; lia.
  - destruct (Hfail 0%nat ltac:(lia)) as (e & data0 & Hbody & He).
    rewrite Nat.add_0_r in Hbody.
    rewrite fetch_from_pop3_equation_1. cbv zeta. rewrite Hbody, He.
    destruct (decide (Z.of_nat k < MAX_RETRIES cfg)) as [_|Hge]; [|lia].
    destruct (IH (S k) (sleep (2 ^ Z.of_nat k) (opened POP3 (server account_config) w)) data)
      as (w' & Heq & Hconns & Hslept).
    + intros i Hi. cbn [sleep did opened conns].
      replace (S (conns w) + i)%nat with (conns w + S i)%nat by lia.
      apply Hfail. lia.
    + cbn [sleep did opened conns].
      replace (S (conns w) + j)%nat with (conns w + S j)%nat by lia. exact Hok.
    + lia.
    + exists w'. split; [exact Heq|]. cbn [sleep did opened conns trace] in Hconns, Hslept.
      rewrite !slept_app in Hslept. cbn [slept] in Hslept.
      replace (S k + j)%nat with (k + S j)%nat in Hslept by lia.
      assert (Hpow : 2 ^ Z.of_nat (S k) = 2 * 2 ^ Z.of_nat k)
        by (rewrite Nat2Z.inj_succ; apply Z.pow_succ_r; lia).
      split; lia.
Qed.

(** X20.  Retrying works: when the first [j] attempts of a fetch started
    at retry count [k] are left by a protocol error, the next one runs to
    its end, and [k + j] does not exceed [MAX_RETRIES], the fetch returns
    the records of that last attempt, after [j + 1] connections and
    [2^(k+j) - 2^k] seconds of sleep.  This holds on the IMAP and on the
    POP3 path. *)
Theorem X20_retry_until_success cfg net account_config j k w data :
  Z.of_nat (k + j) <= MAX_RETRIES cfg ->
  ((forall i, (i < j)%nat ->
      imap_attempt_fails net (email account_config) (conns w + i)) ->
   imap_try_body net (imap_server net (conns w + j)) (email account_config)
     = (None, data) ->
   exists w',
     fetch_from_imap cfg net account_config k w = (Return data, w')
     /\ conns w' = (conns w + j + 1)%nat
     /\ slept (trace w') = slept (trace w) + 2 ^ Z.of_nat (k + j) - 2 ^ Z.of_nat k)
  /\ ((forall i, (i < j)%nat ->
         pop3_attempt_fails cfg net (email account_config) (conns w + i)) ->
      pop3_try_body cfg net (pop3_server net (conns w + j)) (email account_config)
        = (None, data) ->
      exists w',
        fetch_from_pop3 cfg net account_config k w = (Return data, w')
        /\ conns w' = (conns w + j + 1)%nat
        /\ slept (trace w') = slept (trace w) + 2 ^ Z.of_nat (k + j) - 2 ^ Z.of_nat k).
Proof.
  intros Hmax. split; intros Hfail Hok.
  - apply imap_retry_until_success; assumption.
  - apply pop3_retry_until_success; assumption.
Qed.

Lemma X20_retry_witness :
  exists w',
    fetch_from_imap sample_cfg flaky_net sample_account 0 fresh = (Return [], w')
    /\ conns w' = 3%nat
    /\ slept (trace w') = 3.
Proof.
  destruct (proj1 (X20_retry_until_success sample_cfg flaky_net sample_account
                     2 0 fresh [] ltac:(cbn; lia)))
    as (w' & Heq & Hconns & Hslept).
  - intros i Hi. exists IMAP4_error, [].
    destruct i as [|[|i]]; [split; reflexivity | split; reflexivity | lia].
  - reflexivity.
  - exists w'. split; [exact Heq|]. split; [exact Hconns | exact Hslept].
Defined.

(** *** The repository's tests, replayed on the model *)

(** [test_discover_accounts_with_gaps] *)
Example discover_accounts_with_gaps :
  discover_accounts
    {[ "ACCOUNT_1_EMAIL" := "test1@example.com"; "ACCOUNT_1_PASS" := "pass1";
       "ACCOUNT_5_EMAIL" := "test5@example.com"; "ACCOUNT_5_PASS" := "pass5" ]}
  = [ {| email := "test1@example.com"; password := "pass1";
         server := "imap.gmail.com"; protocol := Some "IMAP" |};
      {| email := "test5@example.com"; password := "pass5";
         server := "imap.gmail.com"; protocol := Some "IMAP" |} ].
Proof. vm_compute. reflexivity. Qed.

(** [test_fetch_imap_error]: a server that always fails is tried
    [MAX_RETRIES + 1] times, with pauses of 1, 2 and 4 seconds. *)
Example fetch_imap_error :
  fetch_from_account sample_cfg
    {| imap_server := fun _ => refusing_imap;
       pop3_server := pop3_server sample_net;
       smtp_server := smtp_server sample_net;
       decode_header := decode_header sample_net;
       parsedate_to_datetime := parsedate_to_datetime sample_net;
       excel_write := None; csv_write := None; attachment_open := None |}
    sample_account 0 fresh
  = (Return [],
     {| conns := 4;
        trace := [Connect IMAP "imap.example.com"; Sleep 1;
                  Connect IMAP "imap.example.com"; Sleep 2;
                  Connect IMAP "imap.example.com"; Sleep 4;
                  Connect IMAP "imap.example.com"] |}).
Proof. reflexivity. Qed.

(** [test_send_report_smtp_auth_error]: one connection, then [False]. *)
Example send_report_smtp_auth_error :
  send_consolidated_report sample_cfg sample_net
    [pop3_record sample_net "test@example.com" undated] fresh
  = (Return false,
     {| conns := 1;
        trace := [WriteExcel "consolidated_email_report.xlsx";
                  Connect SMTP "smtp.gmail.com"] |}).
Proof. reflexivity. Qed.

End EmailReportFacts.

(** ** Properties of the built-ins, and of the settings read through them *)

Module PyFacts.
Import Py ListFiles.

Lemma digit_not_space (c : ascii) : is_digit c = true -> is_space c = false.
Proof.
  unfold is_digit, is_space. cbv zeta.
  destruct (N.leb_spec 48 (Ascii.N_of_ascii c)); [|discriminate].
  destruct (N.leb_spec (Ascii.N_of_ascii c) 57); [|discriminate]. intros _.
  destruct (N.leb_spec 9 (Ascii.N_of_ascii c)), (N.leb_spec (Ascii.N_of_ascii c) 13),
    (N.leb_spec 28 (Ascii.N_of_ascii c)), (N.leb_spec (Ascii.N_of_ascii c) 32);
    cbn; try reflexivity; lia.
Qed.

Lemma lstrip_nospace (c : ascii) (l : list ascii) :
  is_space c = false -> lstrip (c :: l) = c :: l.
Proof. intros H. cbn [lstrip]. rewrite H. reflexivity. Qed.

(** Text without white space at either end is left alone by [strip]. *)
Lemma strip_nospace (l : list ascii) :
  Forall (fun c => is_space c = false) l -> strip l = l.
Proof.
  intros Hl. unfold strip. destruct l as [|c l]; [reflexivity|].
  rewrite lstrip_nospace by (inversion Hl; assumption).
  assert (Hrev : Forall (fun c => is_space c = false) (rev (c :: l)))
    by (apply Forall_rev, Hl).
  destruct (rev (c :: l)) as [|x r] eqn:Hr.
  - apply (f_equal (@length ascii)) in Hr. rewrite length_rev in Hr. discriminate.
  - rewrite lstrip_nospace by (inversion Hrev; assumption).
    rewrite <- Hr. apply rev_involutive.
Qed.

Lemma parse_digits_value (ds : list ascii) :
  Forall (fun c => is_digit c = true) ds ->
  forall acc after,
    0 <= acc -> ds <> [] \/ after = true ->
    parse_digits acc after ds
    = Some (Z.of_N (foldl EmailReport.digit_step (Z.to_N acc) ds)).
Proof.
  induction 1 as [|c ds Hc _ IH]; intros acc after Hacc Hne.
  - destruct Hne as [[]| ->]; [reflexivity|]. cbn. rewrite Z2N.id by exact Hacc.
    reflexivity.
  - cbn [parse_digits foldl]. rewrite Hc.
    assert (Hlo : (48 <= Ascii.N_of_ascii c)%N).
    { unfold is_digit in Hc. cbv zeta in Hc.
      destruct (N.leb_spec 48 (Ascii.N_of_ascii c)); [assumption | discriminate]. }
    rewrite IH; [| unfold digit_val; lia | right; reflexivity].
    do 3 f_equal. unfold EmailReport.digit_step, digit_val. lia.
Qed.

Lemma digit_not_sign (c : ascii) :
  is_digit c = true -> Ascii.eqb c "-" = false /\ Ascii.eqb c "+" = false.
Proof.
  intros Hc. split.
  - destruct (Ascii.eqb_spec c "-") as [->|]; [discriminate Hc | reflexivity].
  - destruct (Ascii.eqb_spec c "+") as [->|]; [discriminate Hc | reflexivity].
Qed.

Lemma positive_digits (p : positive) :
  let ds := String.list_ascii_of_string (NilEmpty.string_of_uint (Pos.to_uint p)) in
  Forall (fun c => is_digit c = true) ds
  /\ ds <> []
  /\ parse_digits 0 false ds = Some (Z.pos p).
Proof.
  cbv zeta.
  pose proof (EmailReportFacts.uint_digits (Pos.to_uint p)) as Hd.
  pose proof (EmailReportFacts.to_uint_digits_nonempty (N.pos p)) as Hne.
  unfold str_of_N in Hne. cbn [N.to_uint] in Hne.
  split; [exact Hd|]. split; [exact Hne|].
  rewrite (parse_digits_value _ Hd 0 false) by (lia || (left; exact Hne)).
  change (Z.to_N 0) with 0%N.
  rewrite EmailReportFacts.uint_value, N.mul_0_l, N.add_0_l.
  rewrite <- DecimalPos.Unsigned.of_uint_alt, DecimalPos.Unsigned.of_to.
  reflexivity.
Qed.

Lemma string_of_uint_nonnil (d : Decimal.uint) :
  d <> Decimal.Nil -> NilZero.string_of_uint d = NilEmpty.string_of_uint d.
Proof. destruct d; [congruence | reflexivity ..]. Qed.

(** [int()] reads back what [str()] writes. *)
Lemma int_of_str_of_Z (z : Z) : int_of_string (str_of_Z z) = Some z.
Proof.
  destruct z as [|p|p]; [reflexivity | |].
  - destruct (positive_digits p) as (Hd & Hne & Hparse).
    unfold str_of_Z, int_of_string. cbn [Z.to_int NilZero.string_of_int].
    rewrite string_of_uint_nonnil by apply DecimalPos.Unsigned.to_uint_nonnil.
    rewrite strip_nospace
      by (eapply Forall_impl; [exact Hd | apply digit_not_space]).
    destruct (String.list_ascii_of_string _) as [|c ds]; [congruence|].
    destruct (digit_not_sign c) as [-> ->]; [inversion Hd; assumption|].
    exact Hparse.
  - destruct (positive_digits p) as (Hd & Hne & Hparse).
    unfold str_of_Z, int_of_string. cbn [Z.to_int NilZero.string_of_int].
    rewrite string_of_uint_nonnil by apply DecimalPos.Unsigned.to_uint_nonnil.
    cbn [String.list_ascii_of_string].
    rewrite strip_nospace
      by (constructor; [reflexivity
                       | eapply Forall_impl; [exact Hd | apply digit_not_space]]).
    cbn [Ascii.eqb Bool.eqb]. rewrite Hparse. reflexivity.
Qed.

Lemma str_of_Z_nonempty (z : Z) : String.eqb (str_of_Z z) "" = false.
Proof.
  destruct (String.eqb_spec (str_of_Z z) "") as [H|]; [|reflexivity].
  pose proof (int_of_str_of_Z z) as Hrt. rewrite H in Hrt. discriminate Hrt.
Qed.

(** X16.  A depth limit written as the decimal text of an integer [m],
    negative, zero or positive, is read back as [m]: from the [max_depth]
    request parameter, and from [LISTFILES_MAXDEPTH] when the request
    gives no override; the summary message then shows the same text. *)
Theorem X16_depth_limit_round_trip w request m :
  (_get_req_param request "max_depth" = PyStr (str_of_Z m) ->
   max_depth w request = Some m)
  /\ (is_none (req_maxdepth request) = true ->
      environ w !! "LISTFILES_MAXDEPTH" = Some (str_of_Z m) ->
      max_depth w request = Some m)
  /\ (forall total folder_path,
        summary total folder_path true (Some m)
        = ("Added " +:+ str_of_Z total +:+ " file(s) from " +:+ folder_path
             +:+ " (recursive)" +:+ ", max_depth=" +:+ str_of_Z m, None)).
Proof.
  repeat apply conj.
  - intros Hreq. unfold max_depth, req_maxdepth, py_or. rewrite Hreq.
    cbn [truthy]. rewrite str_of_Z_nonempty. cbn [negb is_none py_int].
    apply int_of_str_of_Z.
  - intros Hnone Henv. unfold max_depth, env_maxdepth. rewrite Hnone, Henv.
    cbn [negb]. apply int_of_str_of_Z.
  - reflexivity.
Qed.

Lemma X16_depth_limit_witness :
  max_depth (sample_world sample_tree {["LISTFILES_MAXDEPTH" := "-12"]}) (sample_request ∅)
  = Some (-12)
  /\ max_depth (sample_world sample_tree ∅) (sample_request {["max_depth" := PyStr "0"]})
     = Some 0.
Proof.
  split.
  - apply (proj1 (proj2 (X16_depth_limit_round_trip
                           (sample_world sample_tree {["LISTFILES_MAXDEPTH" := "-12"]})
                           (sample_request ∅) (-12)))); reflexivity.
  - apply (proj1 (X16_depth_limit_round_trip (sample_world sample_tree ∅)
                    (sample_request {["max_depth" := PyStr "0"]}) 0)).
    reflexivity.
Defined.

End PyFacts.
